(** * The location picker of IftarInUAE

    A shallow embedding of [client/src/components/LocationPicker.tsx]
    (the tabbed version: search / map pin / GPS) and of the parts of
    ECMAScript it relies on, followed by the properties of the component.

    - [JsString]: strings as sequences of UTF-16 code units, with the
      built-ins the component calls ([trim], [slice], [join],
      [encodeURIComponent], the control-character [replace]).
    - [JsNumber]: numbers as IEEE-754 binary64 values (the standard
      library's [spec_float]), with [isFinite], the relational operators,
      [Number.prototype.toString] and [Number.prototype.toFixed].
    - [Sanitizer]: [isValidCoord], [sanitiseAddress], [buildReadableAddress].
    - [Picker]: the component state, its handlers and the search effect,
      written in a small state-and-exception monad, and the events that
      drive them.
    - [Legacy]: the earlier picker of the same file, a text input with a
      "Use My Location" button. *)

From Stdlib Require Import ZArith NArith QArith Qround Qpower.
From Stdlib Require Import List Bool Lia String Ascii.
From Stdlib Require Import Floats.SpecFloat.
Import ListNotations.

(* ================================================================== *)
(** * Strings *)
(* ================================================================== *)

Module JsString.

(** A JavaScript string is a sequence of 16-bit code units. *)
Definition code_unit := N.
Definition jsstring := list code_unit.

(** ASCII literals of the source text. *)
Definition lit (s : string) : jsstring :=
  List.map N_of_ascii (list_ascii_of_string s).

Definition eqb (s t : jsstring) : bool :=
  if list_eq_dec N.eq_dec s t then true else false.

(** [s.length] *)
Definition length (s : jsstring) : nat := List.length s.

(** Truthiness of a string value: the empty string is falsy. *)
Definition truthy (s : jsstring) : bool :=
  match s with [] => false | _ :: _ => true end.

(** The class [[\x00-\x1F\x7F]] of the regular expression in
    [sanitiseAddress]. *)
Definition is_control (c : code_unit) : bool :=
  ((c <=? 31) || (c =? 127))%N.

(** [raw.replace(/[\x00-\x1F\x7F]/g, "")] *)
Definition replace_control (raw : jsstring) : jsstring :=
  List.filter (fun c => negb (is_control c)) raw.

(** ECMAScript WhiteSpace and LineTerminator code points, the ones
    [String.prototype.trim] removes; all are in the basic plane, so the
    test is on single code units. *)
Definition is_white_space (c : code_unit) : bool :=
  ((c =? 9) || (c =? 10) || (c =? 11) || (c =? 12) || (c =? 13)
   || (c =? 32) || (c =? 160) || (c =? 5760)
   || ((8192 <=? c) && (c <=? 8202))
   || (c =? 8232) || (c =? 8233) || (c =? 8239) || (c =? 8287)
   || (c =? 12288) || (c =? 65279))%N.

Fixpoint trim_start (s : jsstring) : jsstring :=
  match s with
  | c :: rest => if is_white_space c then trim_start rest else s
  | [] => []
  end.

Definition trim_end (s : jsstring) : jsstring :=
  List.rev (trim_start (List.rev s)).

(** [s.trim()] *)
Definition trim (s : jsstring) : jsstring := trim_end (trim_start s).

(** [s.slice(0, n)] for a non-negative [n] *)
Definition slice0 (n : nat) (s : jsstring) : jsstring := List.firstn n s.

(** [parts.join(sep)] *)
Fixpoint join (sep : jsstring) (parts : list jsstring) : jsstring :=
  match parts with
  | [] => []
  | [p] => p
  | p :: rest => p ++ sep ++ join sep rest
  end.

(** ** [encodeURIComponent] *)

(** The unreserved set: ASCII letters, digits and [-_.!~*'()]. *)
Definition is_unreserved (c : code_unit) : bool :=
  (((65 <=? c) && (c <=? 90)) || ((97 <=? c) && (c <=? 122))
   || ((48 <=? c) && (c <=? 57))
   || (c =? 45) || (c =? 95) || (c =? 46) || (c =? 33) || (c =? 126)
   || (c =? 42) || (c =? 39) || (c =? 40) || (c =? 41))%N.

Definition is_leading_surrogate (c : code_unit) : bool :=
  ((55296 <=? c) && (c <=? 56319))%N.
Definition is_trailing_surrogate (c : code_unit) : bool :=
  ((56320 <=? c) && (c <=? 57343))%N.

Definition hex_digit (d : N) : code_unit :=
  (if d <? 10 then 48 + d else 55 + d)%N.

(** ["%XX"], upper-case. *)
Definition percent (octet : N) : jsstring :=
  [37; hex_digit (octet / 16); hex_digit (octet mod 16)]%N.

(** UTF-8 octets of a code point. *)
Definition utf8 (cp : N) : list N :=
  (if cp <? 128 then [cp]
   else if cp <? 2048 then [192 + cp / 64; 128 + cp mod 64]
   else if cp <? 65536 then
     [224 + cp / 4096; 128 + (cp / 64) mod 64; 128 + cp mod 64]
   else
     [240 + cp / 262144; 128 + (cp / 4096) mod 64;
      128 + (cp / 64) mod 64; 128 + cp mod 64])%N.

Definition escape (cp : N) : jsstring := List.flat_map percent (utf8 cp).

Definition surrogate_pair (lead trail : code_unit) : N :=
  (65536 + (lead - 55296) * 1024 + (trail - 56320))%N.

(** [None] is the [URIError] thrown on an unpaired surrogate. *)
Fixpoint encodeURIComponent (s : jsstring) : option jsstring :=
  match s with
  | [] => Some []
  | c :: rest =>
    if is_unreserved c then option_map (cons c) (encodeURIComponent rest)
    else if is_trailing_surrogate c then None
    else if is_leading_surrogate c then
      match rest with
      | t :: rest' =>
        if is_trailing_surrogate t
        then option_map (app (escape (surrogate_pair c t)))
                        (encodeURIComponent rest')
        else None
      | [] => None
      end
    else option_map (app (escape c)) (encodeURIComponent rest)
  end.

(** Decimal digits of a natural number, most significant first. *)
Fixpoint digits_of_uint (u : Decimal.uint) : jsstring :=
  match u with
  | Decimal.Nil => []
  | Decimal.D0 r => 48%N :: digits_of_uint r
  | Decimal.D1 r => 49%N :: digits_of_uint r
  | Decimal.D2 r => 50%N :: digits_of_uint r
  | Decimal.D3 r => 51%N :: digits_of_uint r
  | Decimal.D4 r => 52%N :: digits_of_uint r
  | Decimal.D5 r => 53%N :: digits_of_uint r
  | Decimal.D6 r => 54%N :: digits_of_uint r
  | Decimal.D7 r => 55%N :: digits_of_uint r
  | Decimal.D8 r => 56%N :: digits_of_uint r
  | Decimal.D9 r => 57%N :: digits_of_uint r
  end.

Definition decimal (n : N) : jsstring := digits_of_uint (N.to_uint n).

Definition zeros (n : nat) : jsstring := List.repeat 48%N n.

End JsString.

(* ================================================================== *)
(** * Numbers *)
(* ================================================================== *)

Module JsNumber.
Import JsString.

(** The Number type: IEEE-754 binary64, 53 bits of precision. *)
Definition prec : Z := 53.
Definition emax : Z := 1024.
Definition number := spec_float.

(** The representations that are binary64 values. *)
Definition is_binary64 (x : number) : bool := valid_binary prec emax x.

(** The mathematical value of a finite number; [None] for NaN and the
    infinities. *)
Definition finite_value (s : bool) (m : positive) (e : Z) : Q :=
  inject_Z (cond_Zopp s (Zpos m)) * 2 ^ e.

Definition real (x : number) : option Q :=
  match x with
  | S754_zero _ => Some 0
  | S754_finite s m e => Some (finite_value s m e)
  | S754_infinity _ | S754_nan => None
  end.

(** The value of a finite number in units of [2^(-1074)], the least
    positive binary64 value: an integer. *)
Definition scaled (x : number) : Z :=
  match x with
  | S754_finite s m e => cond_Zopp s (Zpos m) * 2 ^ (e + 1074)
  | S754_zero _ | S754_infinity _ | S754_nan => 0
  end.

(** The number nearest to [s * 10^p] (ties to even): the value of a
    decimal literal with digits [s] and exponent [p]. *)
Definition of_decimal (s : positive) (p : Z) : number :=
  if (0 <=? p)%Z
  then binary_normalize prec emax (Zpos s * 10 ^ p) 0 false
  else
    let '(q, e, l) :=
      SFdiv_core_binary prec emax (Zpos s) 0 (10 ^ (- p)) 0 in
    binary_round_aux prec emax false q e l.

(** Unary minus. *)
Definition neg (x : number) : number := SFopp x.

(** The global [isFinite] on a Number argument. *)
Definition isFinite (x : number) : bool :=
  match x with
  | S754_zero _ | S754_finite _ _ _ => true
  | S754_infinity _ | S754_nan => false
  end.

(** [x >= y] and [x <= y]: false as soon as an operand is NaN. *)
Definition ge (x y : number) : bool :=
  match SFcompare x y with
  | Some (Gt | Eq) => true
  | _ => false
  end.

Definition le (x y : number) : bool :=
  match SFcompare x y with
  | Some (Lt | Eq) => true
  | _ => false
  end.

(** Identity of Number values, as in "F(...) is x". *)
Definition same (x y : number) : bool :=
  match x, y with
  | S754_zero a, S754_zero b => Bool.eqb a b
  | S754_infinity a, S754_infinity b => Bool.eqb a b
  | S754_nan, S754_nan => true
  | S754_finite a m e, S754_finite b m' e' =>
    Bool.eqb a b && Pos.eqb m m' && Z.eqb e e'
  | _, _ => false
  end.

(** ** [Number::toString], radix 10 *)

(** The [n] with [10^(n-1) <= q < 10^n], searched upwards from [n0];
    [pow] is [10^n0]. *)
Fixpoint decimal_exponent_from (fuel : nat) (q pow : Q) (n0 : Z) : Z :=
  match fuel with
  | O => n0
  | S fuel' =>
    if Qle_bool pow q
    then decimal_exponent_from fuel' q (pow * 10) (n0 + 1)
    else n0
  end.

Definition decimal_exponent (q : Q) : Z :=
  decimal_exponent_from 640 q (10 ^ (-324)) (-324).

Definition Qabs_diff (a b : Q) : Q :=
  if Qle_bool a b then b - a else a - b.

(** The digit strings [s] of [k] digits for which [s * 10^(n-k)]
    rounds to the number [x] of value [q]: only the two integers around
    [q / 10^(n-k)] can qualify. *)
Definition candidates (x : number) (q : Q) (k n : Z) : list (Z * Z) :=
  let y := q / 10 ^ (n - k) in
  let ok s :=
    (10 ^ (k - 1) <=? s)%Z && (s <? 10 ^ k)%Z &&
    match s with
    | Zpos p => same (of_decimal p (n - k)) x
    | _ => false
    end in
  List.map (fun s => (s, n))
    (List.filter ok (List.nodup Z.eq_dec [Qfloor y; Qceiling y])).

(** Among the qualifying [(s, n)], the one closest to [q]; an even [s]
    on a tie. *)
Definition closer (q : Q) (k : Z) (a b : Z * Z) : Z * Z :=
  let dist c := Qabs_diff (inject_Z (fst c) * 10 ^ (snd c - k)) q in
  if Qle_bool (dist b) (dist a) && negb (Qle_bool (dist a) (dist b))
  then b
  else if Qle_bool (dist a) (dist b) && negb (Qle_bool (dist b) (dist a))
  then a
  else if Z.even (fst a) then a else b.

Definition closest (q : Q) (k : Z) (cs : list (Z * Z)) : option (Z * Z) :=
  match cs with
  | [] => None
  | c :: rest => Some (List.fold_left (closer q k) rest c)
  end.

(** The triple [(n, k, s)] of the specification: [k] as small as
    possible, searched from [k] upwards. *)
Fixpoint shortest_from (fuel : nat) (x : number) (q : Q) (n0 k : Z)
  : option (Z * Z * Z) :=
  match fuel with
  | O => None
  | S fuel' =>
    match closest q k (candidates x q k n0 ++ candidates x q k (n0 + 1)) with
    | Some (s, n) => Some (n, k, s)
    | None => shortest_from fuel' x q n0 (k + 1)
    end
  end.

Definition shortest (x : number) (q : Q) : option (Z * Z * Z) :=
  shortest_from 17 x q (decimal_exponent q) 1.

(** The layout of the digits, steps 6 to 11 of [Number::toString]. *)
Definition layout (n k : Z) (digits : jsstring) : jsstring :=
  if ((-5 <=? n) && (n <=? 21))%Z then
    if (k <=? n)%Z then digits ++ zeros (Z.to_nat (n - k))
    else if (0 <? n)%Z then
      List.firstn (Z.to_nat n) digits ++ lit "." ++
      List.skipn (Z.to_nat n) digits
    else lit "0." ++ zeros (Z.to_nat (- n)) ++ digits
  else
    let sign := if (n - 1 <? 0)%Z then lit "-" else lit "+" in
    let exponent := decimal (Z.to_N (Z.abs (n - 1))) in
    if (k =? 1)%Z then digits ++ lit "e" ++ sign ++ exponent
    else List.firstn 1 digits ++ lit "." ++ List.skipn 1 digits ++
         lit "e" ++ sign ++ exponent.

Definition toString_positive (m : positive) (e : Z) : jsstring :=
  match shortest (S754_finite false m e) (finite_value false m e) with
  | Some (n, k, s) => layout n k (decimal (Z.to_N s))
  | None => []
  end.

(** [x.toString()], also the conversion in a template literal. *)
Definition toString (x : number) : jsstring :=
  match x with
  | S754_nan => lit "NaN"
  | S754_zero _ => lit "0"
  | S754_infinity false => lit "Infinity"
  | S754_infinity true => lit "-Infinity"
  | S754_finite false m e => toString_positive m e
  | S754_finite true m e => lit "-" ++ toString_positive m e
  end.

(** ** [Number.prototype.toFixed] *)

(** [x.toFixed(f)] for [0 <= f <= 100]. *)
Definition toFixed (x : number) (f : nat) : jsstring :=
  match x with
  | S754_nan | S754_infinity _ => toString x
  | S754_zero _ | S754_finite _ _ _ =>
    let q := match real x with Some q => q | None => 0 end in
    let sign := if Qle_bool 0 q then [] else lit "-" in
    let a := if Qle_bool 0 q then q else - q in
    if Qle_bool (10 ^ 21) a then sign ++ toString (SFabs x)
    else
      (* the integer n with n / 10^f closest to a, the larger on a tie *)
      let n := Qfloor (a * 10 ^ Z.of_nat f + (1 # 2)) in
      let m := decimal (Z.to_N n) in
      let m :=
        match f with
        | O => m
        | S _ =>
          let m := zeros (S f - JsString.length m) ++ m in
          let k := JsString.length m in
          List.firstn (k - f) m ++ lit "." ++ List.skipn (k - f) m
        end in
      sign ++ m
  end.

End JsNumber.

(* ================================================================== *)
(** * Responses of the two geocoding providers *)
(* ================================================================== *)

(** [PhotonFeature]: a candidate of the forward search. *)
Module Photon.
Import JsString JsNumber.

Record properties := {
  name : option jsstring;
  street : option jsstring;
  city : option jsstring;
  state : option jsstring;
  country : option jsstring;
  postcode : option jsstring }.

(** [geometry.coordinates] is the pair [[lng, lat]]. *)
Record feature := {
  props : properties;
  coordinates : number * number }.

(** The body of a search response; [data.features] may be missing. *)
Record response := { features : option (list feature) }.
End Photon.

(** [NominatimResponse]: the answer of the reverse lookup. *)
Module Nominatim.
Import JsString.

Record address := {
  amenity : option jsstring;
  road : option jsstring;
  suburb : option jsstring;
  city : option jsstring;
  state : option jsstring;
  country : option jsstring }.

Record response := {
  display_name : jsstring;
  addr : address }.
End Nominatim.

(* ================================================================== *)
(** * The result sanitizer *)
(* ================================================================== *)

Module Sanitizer.
Import JsString JsNumber.

(** The literals [90] and [180]. *)
Definition ninety : number := of_decimal 90 0.
Definition one_eighty : number := of_decimal 180 0.

(** [isValidCoord(lat, lng)] *)
Definition isValidCoord (lat lng : number) : bool :=
  isFinite lat && isFinite lng &&
  ge lat (neg ninety) && le lat ninety &&
  ge lng (neg one_eighty) && le lng one_eighty.

(** [sanitiseAddress(raw)] *)
Definition sanitiseAddress (raw : jsstring) : jsstring :=
  slice0 300 (trim (replace_control raw)).

(** [if (field) parts.push(field)]: an optional field is pushed when it
    is present and not the empty string. *)
Definition push_if (field : option jsstring) (parts : list jsstring)
  : list jsstring :=
  match field with
  | Some s => if truthy s then parts ++ [s] else parts
  | None => parts
  end.

(** [buildReadableAddress(props)] *)
Definition buildReadableAddress (p : Photon.properties) : jsstring :=
  let parts := [] in
  let parts := push_if (Photon.name p) parts in
  let parts := push_if (Photon.street p) parts in
  let parts := push_if (Photon.city p) parts in
  let parts := push_if (Photon.state p) parts in
  let joined := join (lit ", ") parts in
  sanitiseAddress (if truthy joined then joined else lit "Unknown location").

(** The address of a reverse lookup, the block shared by [handlePinDrop]
    and [fetchGpsLocation]. *)
Definition reverseAddress (data : Nominatim.response) : jsstring :=
  let a := Nominatim.addr data in
  let parts := [] in
  let parts := push_if (Nominatim.amenity a) parts in
  let parts := push_if (Nominatim.road a) parts in
  let parts := push_if (Nominatim.suburb a) parts in
  let parts := push_if (Nominatim.city a) parts in
  let parts := push_if (Nominatim.state a) parts in
  sanitiseAddress
    (if (0 <? List.length parts)%nat then join (lit ", ") parts
     else Nominatim.display_name data).

End Sanitizer.

(* ================================================================== *)
(** * The component *)
(* ================================================================== *)

Module Picker.
Import JsString JsNumber Sanitizer.

(** [LocationData], the ResolvedLocation handed to the hosting form. *)
Record LocationData := {
  address : jsstring;
  latitude : jsstring;
  longitude : jsstring }.

Inductive Tab := SearchTab | MapTab | GpsTab.

(** A call of one of the two callbacks of the props. *)
Inductive upcall :=
| OnChange (location : jsstring)
| OnLocationFetched (data : LocationData).

(** A [fetch] that was issued. *)
Record request := {
  url : jsstring;
  headers : list (jsstring * jsstring) }.

(** How a [fetch] settles: the promise rejects (network failure), or a
    response arrives with its [ok] flag and a body; [None] is a body
    that [res.json()] rejects. *)
Inductive reply (A : Type) :=
| Rejected
| Responded (ok : bool) (json : option A).
Arguments Rejected {A}.
Arguments Responded {A} ok json.

(** What [getCurrentPosition] reports, or the absence of
    [navigator.geolocation]. *)
Inductive geolocation :=
| Unsupported
| Position (lat lng : number)
| PositionError (code : N).

Definition PERMISSION_DENIED : N := 1.
Definition POSITION_UNAVAILABLE : N := 2.
Definition TIMEOUT : N := 3.

(** A pending [setTimeout] of the search effect: its callback closes
    over the query of the render that scheduled it. *)
Record timer := {
  timer_id : N;
  due : N;
  timer_query : jsstring }.

(** The component: its [useState] cells, the [useRef] cell, whether the
    last run of the search effect returned a cleanup, and the
    environment (clock in milliseconds, timer table, requests in
    flight and issued, calls made upwards). *)
Record State := {
  activeTab : Tab;
  isLoading : bool;
  error : option jsstring;
  searchQuery : jsstring;
  searchResults : list Photon.feature;
  isSearching : bool;
  mapLat : option number;
  mapLng : option number;
  isReverseGeocoding : bool;
  confirmedAddress : jsstring;
  searchDebounceRef : option N;
  effectCleanup : bool;
  now : N;
  timers : list timer;
  nextTimer : N;
  inflight : nat;
  fetched : list request;
  upcalls : list upcall }.

Definition with_activeTab (v : Tab) (st : State) : State :=
  Build_State v (isLoading st) (error st) (searchQuery st)
    (searchResults st) (isSearching st) (mapLat st) (mapLng st)
    (isReverseGeocoding st) (confirmedAddress st) (searchDebounceRef st)
    (effectCleanup st) (now st) (timers st) (nextTimer st) (inflight st)
    (fetched st) (upcalls st).
Definition with_isLoading (v : bool) (st : State) : State :=
  Build_State (activeTab st) v (error st) (searchQuery st)
    (searchResults st) (isSearching st) (mapLat st) (mapLng st)
    (isReverseGeocoding st) (confirmedAddress st) (searchDebounceRef st)
    (effectCleanup st) (now st) (timers st) (nextTimer st) (inflight st)
    (fetched st) (upcalls st).
Definition with_error (v : option jsstring) (st : State) : State :=
  Build_State (activeTab st) (isLoading st) v (searchQuery st)
    (searchResults st) (isSearching st) (mapLat st) (mapLng st)
    (isReverseGeocoding st) (confirmedAddress st) (searchDebounceRef st)
    (effectCleanup st) (now st) (timers st) (nextTimer st) (inflight st)
    (fetched st) (upcalls st).
Definition with_searchQuery (v : jsstring) (st : State) : State :=
  Build_State (activeTab st) (isLoading st) (error st) v
    (searchResults st) (isSearching st) (mapLat st) (mapLng st)
    (isReverseGeocoding st) (confirmedAddress st) (searchDebounceRef st)
    (effectCleanup st) (now st) (timers st) (nextTimer st) (inflight st)
    (fetched st) (upcalls st).
Definition with_searchResults (v : list Photon.feature) (st : State) : State :=
  Build_State (activeTab st) (isLoading st) (error st) (searchQuery st) v
    (isSearching st) (mapLat st) (mapLng st) (isReverseGeocoding st)
    (confirmedAddress st) (searchDebounceRef st) (effectCleanup st)
    (now st) (timers st) (nextTimer st) (inflight st) (fetched st)
    (upcalls st).
Definition with_isSearching (v : bool) (st : State) : State :=
  Build_State (activeTab st) (isLoading st) (error st) (searchQuery st)
    (searchResults st) v (mapLat st) (mapLng st) (isReverseGeocoding st)
    (confirmedAddress st) (searchDebounceRef st) (effectCleanup st)
    (now st) (timers st) (nextTimer st) (inflight st) (fetched st)
    (upcalls st).
Definition with_mapLat (v : option number) (st : State) : State :=
  Build_State (activeTab st) (isLoading st) (error st) (searchQuery st)
    (searchResults st) (isSearching st) v (mapLng st)
    (isReverseGeocoding st) (confirmedAddress st) (searchDebounceRef st)
    (effectCleanup st) (now st) (timers st) (nextTimer st) (inflight st)
    (fetched st) (upcalls st).
Definition with_mapLng (v : option number) (st : State) : State :=
  Build_State (activeTab st) (isLoading st) (error st) (searchQuery st)
    (searchResults st) (isSearching st) (mapLat st) v
    (isReverseGeocoding st) (confirmedAddress st) (searchDebounceRef st)
    (effectCleanup st) (now st) (timers st) (nextTimer st) (inflight st)
    (fetched st) (upcalls st).
Definition with_isReverseGeocoding (v : bool) (st : State) : State :=
  Build_State (activeTab st) (isLoading st) (error st) (searchQuery st)
    (searchResults st) (isSearching st) (mapLat st) (mapLng st) v
    (confirmedAddress st) (searchDebounceRef st) (effectCleanup st)
    (now st) (timers st) (nextTimer st) (inflight st) (fetched st)
    (upcalls st).
Definition with_confirmedAddress (v : jsstring) (st : State) : State :=
  Build_State (activeTab st) (isLoading st) (error st) (searchQuery st)
    (searchResults st) (isSearching st) (mapLat st) (mapLng st)
    (isReverseGeocoding st) v (searchDebounceRef st) (effectCleanup st)
    (now st) (timers st) (nextTimer st) (inflight st) (fetched st)
    (upcalls st).
Definition with_searchDebounceRef (v : option N) (st : State) : State :=
  Build_State (activeTab st) (isLoading st) (error st) (searchQuery st)
    (searchResults st) (isSearching st) (mapLat st) (mapLng st)
    (isReverseGeocoding st) (confirmedAddress st) v (effectCleanup st)
    (now st) (timers st) (nextTimer st) (inflight st) (fetched st)
    (upcalls st).
Definition with_effectCleanup (v : bool) (st : State) : State :=
  Build_State (activeTab st) (isLoading st) (error st) (searchQuery st)
    (searchResults st) (isSearching st) (mapLat st) (mapLng st)
    (isReverseGeocoding st) (confirmedAddress st) (searchDebounceRef st) v
    (now st) (timers st) (nextTimer st) (inflight st) (fetched st)
    (upcalls st).
Definition with_now (v : N) (st : State) : State :=
  Build_State (activeTab st) (isLoading st) (error st) (searchQuery st)
    (searchResults st) (isSearching st) (mapLat st) (mapLng st)
    (isReverseGeocoding st) (confirmedAddress st) (searchDebounceRef st)
    (effectCleanup st) v (timers st) (nextTimer st) (inflight st)
    (fetched st) (upcalls st).
Definition with_timers (v : list timer) (st : State) : State :=
  Build_State (activeTab st) (isLoading st) (error st) (searchQuery st)
    (searchResults st) (isSearching st) (mapLat st) (mapLng st)
    (isReverseGeocoding st) (confirmedAddress st) (searchDebounceRef st)
    (effectCleanup st) (now st) v (nextTimer st) (inflight st)
    (fetched st) (upcalls st).
Definition with_nextTimer (v : N) (st : State) : State :=
  Build_State (activeTab st) (isLoading st) (error st) (searchQuery st)
    (searchResults st) (isSearching st) (mapLat st) (mapLng st)
    (isReverseGeocoding st) (confirmedAddress st) (searchDebounceRef st)
    (effectCleanup st) (now st) (timers st) v (inflight st) (fetched st)
    (upcalls st).
Definition with_inflight (v : nat) (st : State) : State :=
  Build_State (activeTab st) (isLoading st) (error st) (searchQuery st)
    (searchResults st) (isSearching st) (mapLat st) (mapLng st)
    (isReverseGeocoding st) (confirmedAddress st) (searchDebounceRef st)
    (effectCleanup st) (now st) (timers st) (nextTimer st) v (fetched st)
    (upcalls st).
Definition with_fetched (v : list request) (st : State) : State :=
  Build_State (activeTab st) (isLoading st) (error st) (searchQuery st)
    (searchResults st) (isSearching st) (mapLat st) (mapLng st)
    (isReverseGeocoding st) (confirmedAddress st) (searchDebounceRef st)
    (effectCleanup st) (now st) (timers st) (nextTimer st) (inflight st) v
    (upcalls st).
Definition with_upcalls (v : list upcall) (st : State) : State :=
  Build_State (activeTab st) (isLoading st) (error st) (searchQuery st)
    (searchResults st) (isSearching st) (mapLat st) (mapLng st)
    (isReverseGeocoding st) (confirmedAddress st) (searchDebounceRef st)
    (effectCleanup st) (now st) (timers st) (nextTimer st) (inflight st)
    (fetched st) v.

(** ** Commands

    A block of the source is a command: from a state it completes
    normally with a value, throws, or stops at an [await] whose promise
    has not settled; in each case it leaves a state behind. *)

Inductive completion (A : Type) :=
| Done (a : A)
| Thrown
| Awaiting.
Arguments Done {A} a.
Arguments Thrown {A}.
Arguments Awaiting {A}.

Definition Cmd (A : Type) : Type := State -> completion A * State.

Definition ret {A} (a : A) : Cmd A := fun st => (Done a, st).

Definition bind {A B} (m : Cmd A) (k : A -> Cmd B) : Cmd B :=
  fun st =>
    match m st with
    | (Done a, st') => k a st'
    | (Thrown, st') => (Thrown, st')
    | (Awaiting, st') => (Awaiting, st')
    end.

Definition throw {A} : Cmd A := fun st => (Thrown, st).
Definition await {A} : Cmd A := fun st => (Awaiting, st).
Definition gets {A} (f : State -> A) : Cmd A := fun st => (Done (f st), st).
Definition modify (f : State -> State) : Cmd unit :=
  fun st => (Done tt, f st).

Declare Scope cmd_scope.
Delimit Scope cmd_scope with cmd.
Notation "x <- m ;; k" := (bind m (fun x => k))
  (at level 61, m at next level, right associativity) : cmd_scope.
Notation "m ;; k" := (bind m (fun _ => k))
  (at level 61, right associativity) : cmd_scope.
Local Open Scope cmd_scope.

(** [try { body } catch { handler } finally { final }]: the handler
    runs when the body throws, the finalizer after either; a block
    suspended at an [await] runs neither yet. *)
Definition try_catch_finally (body handler final : Cmd unit) : Cmd unit :=
  fun st =>
    let after (r : completion unit * State) :=
      match final (snd r) with
      | (Done _, st') => (fst r, st')
      | other => other
      end in
    match body st with
    | (Done a, st') => after (Done a, st')
    | (Thrown, st') =>
      match handler st' with
      | (Awaiting, st'') => (Awaiting, st'')
      | r => after r
      end
    | (Awaiting, st') => (Awaiting, st')
    end.

(** The state a command leaves behind. *)
Definition exec {A} (m : Cmd A) (st : State) : State := snd (m st).

(** ** The cells *)

Definition setActiveTab v := modify (with_activeTab v).
Definition setIsLoading v := modify (with_isLoading v).
Definition setError v := modify (with_error v).
Definition setSearchQuery v := modify (with_searchQuery v).
Definition setSearchResults v := modify (with_searchResults v).
Definition setIsSearching v := modify (with_isSearching v).
Definition setMapLat v := modify (with_mapLat (Some v)).
Definition setMapLng v := modify (with_mapLng (Some v)).
Definition setIsReverseGeocoding v := modify (with_isReverseGeocoding v).
Definition setConfirmedAddress v := modify (with_confirmedAddress v).

(** ** The environment *)

(** A call of a prop callback, recorded in order. *)
Definition call (c : upcall) : Cmd unit :=
  modify (fun st => with_upcalls (upcalls st ++ [c]) st).

(** [setTimeout(callback, delay)]: a fresh positive identifier. *)
Definition setTimeout (query : jsstring) (delay : N) : Cmd N :=
  fun st =>
    let id := nextTimer st in
    let t := {| timer_id := id; due := (now st + delay)%N;
                timer_query := query |} in
    (Done id, with_nextTimer (N.succ id) (with_timers (timers st ++ [t]) st)).

(** [clearTimeout(id)] *)
Definition clearTimeout (id : N) : Cmd unit :=
  modify (fun st =>
    with_timers
      (List.filter (fun t => negb (N.eqb (timer_id t) id)) (timers st)) st).

(** [fetch(url, { headers })]: the request is issued and recorded. *)
Definition fetch (u : jsstring) (h : list (jsstring * jsstring))
  : Cmd unit :=
  modify (fun st =>
    with_fetched (fetched st ++ [{| url := u; headers := h |}]) st).

(** The value of [await promise] once the promise has settled with [r]. *)
Definition settled {A} (r : reply A) : Cmd (bool * option A) :=
  match r with
  | Rejected => throw
  | Responded ok body => ret (ok, body)
  end.

(** [await res.json()] *)
Definition json {A} (body : option A) : Cmd A :=
  match body with
  | Some data => ret data
  | None => throw
  end.

(** ** Constants of the source *)

Definition UAE_BBOX : jsstring := lit "51.5,22.6,56.4,26.1".

Definition NOMINATIM_HEADERS : list (jsstring * jsstring) :=
  [ (lit "Accept-Language", lit "en");
    (lit "User-Agent", lit "IftarInUAE/1.0 (https://iftarinuae.com)") ].

Definition photon_url (encoded : jsstring) : jsstring :=
  lit "https://photon.komoot.io/api/?q=" ++ encoded ++
  lit "&limit=5&bbox=" ++ UAE_BBOX ++ lit "&lang=en".

Definition nominatim_url (lat lng : number) : jsstring :=
  lit "https://nominatim.openstreetmap.org/reverse?lat=" ++ toString lat ++
  lit "&lon=" ++ toString lng ++ lit "&format=json".

Section Component.

(** The props: [onChange] is required, [onLocationFetched] optional. *)
Variable onLocationFetched_given : bool.

(** ** [notifyLocation] *)
Definition notifyLocation (data : LocationData) : Cmd unit :=
  call (OnChange (address data));;
  setConfirmedAddress (address data);;
  (if onLocationFetched_given then call (OnLocationFetched data)
   else ret tt);;
  setError None.

(** ** The search effect *)

(** [if (searchDebounceRef.current) clearTimeout(searchDebounceRef.current)] *)
Definition clearDebounce : Cmd unit :=
  ref <- gets searchDebounceRef;;
  match ref with
  | Some id => if (id =? 0)%N then ret tt else clearTimeout id
  | None => ret tt
  end.

(** The body of the effect, run for the [searchQuery] of the render. *)
Definition searchEffect : Cmd unit :=
  clearDebounce;;
  searchQuery <- gets searchQuery;;
  if (JsString.length (trim searchQuery) <? 2)%nat then
    setSearchResults [];;
    modify (with_effectCleanup false)
  else
    id <- setTimeout searchQuery 300;;
    modify (with_searchDebounceRef (Some id));;
    modify (with_effectCleanup true).

(** A render in which [searchQuery] differs from the one of the
    previous render: the cleanup of the last run, when it returned
    one, then the effect. *)
Definition rerunSearchEffect : Cmd unit :=
  cleanup <- gets effectCleanup;;
  (if cleanup then clearDebounce else ret tt);;
  searchEffect.

Definition render_after (previous : jsstring) : Cmd unit :=
  current <- gets searchQuery;;
  if JsString.eqb previous current then ret tt else rerunSearchEffect.

(** The timer callback up to its [await fetch(url)]. *)
Definition searchCallback_begin (searchQuery : jsstring) : Cmd unit :=
  setIsSearching true;;
  try_catch_finally
    (encoded <- match encodeURIComponent searchQuery with
                | Some e => ret e
                | None => throw
                end;;
     fetch (photon_url encoded) [];;
     modify (fun st => with_inflight (S (inflight st)) st);;
     await)
    (setSearchResults [])
    (setIsSearching false).

(** The timer callback from the [await] on, the request having
    settled with [r]. *)
Definition searchCallback_resume (r : reply Photon.response) : Cmd unit :=
  try_catch_finally
    (res <- settled r;;
     (if negb (fst res) then throw else ret tt);;
     data <- json (snd res);;
     setSearchResults
       (match Photon.features data with Some fs => fs | None => [] end))
    (setSearchResults [])
    (setIsSearching false).

(** ** [handleSearchSelect] *)
Definition handleSearchSelect (feature : Photon.feature) : Cmd unit :=
  let '(lng, lat) := Photon.coordinates feature in
  if negb (isValidCoord lat lng) then ret tt
  else
    let address := buildReadableAddress (Photon.props feature) in
    setSearchQuery address;;
    setSearchResults [];;
    notifyLocation {| address := address;
                      latitude := toString lat;
                      longitude := toString lng |}.

(** ** [handlePinDrop] *)

(** Up to the [await fetch(...)]. *)
Definition handlePinDrop_begin (lat lng : number) : Cmd unit :=
  setMapLat lat;;
  setMapLng lng;;
  setIsReverseGeocoding true;;
  setError None;;
  fetch (nominatim_url lat lng) NOMINATIM_HEADERS.

(** From the [await] on. *)
Definition handlePinDrop_resume (lat lng : number)
    (r : reply Nominatim.response) : Cmd unit :=
  try_catch_finally
    (res <- settled r;;
     (if negb (fst res) then throw else ret tt);;
     data <- json (snd res);;
     let address := reverseAddress data in
     notifyLocation {| address := address;
                       latitude := toString lat;
                       longitude := toString lng |})
    (notifyLocation
       {| address := toFixed lat 5 ++ lit ", " ++ toFixed lng 5;
          latitude := toString lat;
          longitude := toString lng |})
    (setIsReverseGeocoding false).

Definition handlePinDrop (lat lng : number)
    (r : reply Nominatim.response) : Cmd unit :=
  handlePinDrop_begin lat lng;;
  handlePinDrop_resume lat lng r.

(** ** [fetchGpsLocation] *)

(** The success callback of [getCurrentPosition]. *)
Definition gpsSuccess_begin (latitude longitude : number) : Cmd unit :=
  fetch (nominatim_url latitude longitude) NOMINATIM_HEADERS.

Definition gpsSuccess_resume (latitude longitude : number)
    (r : reply Nominatim.response) : Cmd unit :=
  try_catch_finally
    (res <- settled r;;
     (if negb (fst res) then throw else ret tt);;
     data <- json (snd res);;
     let address := reverseAddress data in
     notifyLocation {| address := address;
                       latitude := toString latitude;
                       longitude := toString longitude |};;
     setMapLat latitude;;
     setMapLng longitude)
    (setError (Some (lit "Failed to get address. Please try again.")))
    (setIsLoading false).

(** The error callback of [getCurrentPosition]. *)
Definition gpsError (code : N) : Cmd unit :=
  setIsLoading false;;
  if (code =? PERMISSION_DENIED)%N then
    setError (Some (lit
      "Location permission denied. Please enable it in your browser settings."))
  else if (code =? POSITION_UNAVAILABLE)%N then
    setError (Some (lit "Location unavailable. Please try again."))
  else if (code =? TIMEOUT)%N then
    setError (Some (lit "Location request timed out. Please try again."))
  else
    setError (Some (lit "An error occurred getting your location.")).

Definition fetchGpsLocation (g : geolocation)
    (r : reply Nominatim.response) : Cmd unit :=
  setIsLoading true;;
  setError None;;
  match g with
  | Unsupported =>
    setError (Some (lit "Geolocation is not supported by your browser"));;
    setIsLoading false
  | Position latitude longitude =>
    gpsSuccess_begin latitude longitude;;
    gpsSuccess_resume latitude longitude r
  | PositionError code => gpsError code
  end.

(** ** The tab bar *)
Definition selectTab (t : Tab) : Cmd unit :=
  setActiveTab t;;
  setError None.

(** ** Events *)

(** Timers whose delay has elapsed run their callback, in the order
    they were scheduled (all share the delay of 300 ms, so this is the
    order in which they fall due). *)
Definition is_due (t0 : N) (t : timer) : bool := (due t <=? t0)%N.

Fixpoint fire (ts : list timer) : Cmd unit :=
  match ts with
  | [] => ret tt
  | t :: rest =>
    (fun st =>
       match searchCallback_begin (timer_query t) st with
       | (_, st') => (Done tt, st')
       end);;
    fire rest
  end.

Definition elapse (ms : N) : Cmd unit :=
  modify (fun st => with_now (now st + ms)%N st);;
  t0 <- gets now;;
  pending <- gets timers;;
  modify (with_timers (List.filter (fun t => negb (is_due t0 t)) pending));;
  fire (List.filter (is_due t0) pending).

(** What happens to the component: the user types in the search box,
    time passes, a search request in flight settles, the user picks a
    candidate, drops a pin (the reverse lookup settling with [r]),
    asks for the device location, or switches tab. *)
Inductive event :=
| Keystroke (text : jsstring)
| Elapse (ms : N)
| SearchSettles (r : reply Photon.response)
| SelectCandidate (feature : Photon.feature)
| PinDrop (lat lng : number) (r : reply Nominatim.response)
| UseMyLocation (g : geolocation) (r : reply Nominatim.response)
| SwitchTab (t : Tab).

Definition handle (e : event) : Cmd unit :=
  match e with
  | Keystroke text =>
    previous <- gets searchQuery;;
    setSearchQuery text;;
    render_after previous
  | Elapse ms => elapse ms
  | SearchSettles r =>
    n <- gets inflight;;
    match n with
    | O => ret tt
    | S n' =>
      modify (with_inflight n');;
      searchCallback_resume r
    end
  | SelectCandidate feature =>
    previous <- gets searchQuery;;
    handleSearchSelect feature;;
    render_after previous
  | PinDrop lat lng r => handlePinDrop lat lng r
  | UseMyLocation g r => fetchGpsLocation g r
  | SwitchTab t => selectTab t
  end.

Definition step (st : State) (e : event) : State := exec (handle e) st.

Definition run (es : list event) (st : State) : State :=
  List.fold_left step es st.

(** The component after its first render: the initial cells, and the
    effect run once for the empty query. *)
Definition initial : State :=
  {| activeTab := SearchTab; isLoading := false; error := None;
     searchQuery := []; searchResults := []; isSearching := false;
     mapLat := None; mapLng := None; isReverseGeocoding := false;
     confirmedAddress := [];
     searchDebounceRef := None; effectCleanup := false;
     now := 0; timers := []; nextTimer := 1;
     inflight := 0; fetched := []; upcalls := [] |}.

Definition mounted : State := exec searchEffect initial.

End Component.

End Picker.

(* ================================================================== *)
(** * The earlier picker *)
(* ================================================================== *)

(** The first [LocationPicker] of the file: one text input and a "Use My
    Location" button.  Its cells [isLoading] and [error] and its
    environment are cells of [Picker.State]; it touches no other. *)
Module Legacy.
Import JsString JsNumber Sanitizer Picker.
Local Open Scope cmd_scope.

Definition HEADERS : list (jsstring * jsstring) :=
  [ (lit "Accept-Language", lit "en") ].

(** "Build a readable address": the parts are joined as they are. *)
Definition readableAddress (data : Nominatim.response) : jsstring :=
  let a := Nominatim.addr data in
  let addressParts := [] in
  let addressParts := push_if (Nominatim.amenity a) addressParts in
  let addressParts := push_if (Nominatim.road a) addressParts in
  let addressParts := push_if (Nominatim.suburb a) addressParts in
  let addressParts := push_if (Nominatim.city a) addressParts in
  let addressParts := push_if (Nominatim.state a) addressParts in
  if (0 <? List.length addressParts)%nat then join (lit ", ") addressParts
  else Nominatim.display_name data.

Section Component.

Variable onLocationFetched_given : bool.

(** The success callback of [getCurrentPosition], from its [await] on. *)
Definition success_resume (latitude longitude : number)
    (r : reply Nominatim.response) : Cmd unit :=
  try_catch_finally
    (res <- settled r;;
     (if negb (fst res) then throw else ret tt);;
     data <- json (snd res);;
     let readableAddress := readableAddress data in
     call (OnChange readableAddress);;
     (if onLocationFetched_given
      then call (OnLocationFetched
                   {| address := readableAddress;
                      latitude := toString latitude;
                      longitude := toString longitude |})
      else ret tt))
    (setError (Some (lit "Failed to get address. Please try again.")))
    (setIsLoading false).

(** [fetchLocation] *)
Definition fetchLocation (g : geolocation) (r : reply Nominatim.response)
  : Cmd unit :=
  setIsLoading true;;
  setError None;;
  match g with
  | Unsupported =>
    setError (Some (lit "Geolocation is not supported by your browser"));;
    setIsLoading false
  | Position latitude longitude =>
    fetch (nominatim_url latitude longitude) HEADERS;;
    success_resume latitude longitude r
  | PositionError code => gpsError code
  end.

(** The text input: [onChange={(e) => onChange(e.target.value)}]. *)
Definition typeLocation (text : jsstring) : Cmd unit :=
  call (OnChange text).

End Component.
End Legacy.

(* ================================================================== *)
(** * Vocabulary of the specification *)
(* ================================================================== *)

Module Spec.
Import JsString JsNumber Picker.

(** Address assembly as the specification words it: the components
    that are present, in precedence order, composed with [", "]; the
    fallback when none is present. *)
Definition components (ordered : list (option jsstring)) : list jsstring :=
  List.filter truthy
    (List.flat_map (fun f => match f with Some s => [s] | None => [] end)
                   ordered).

Definition assemble (ordered : list (option jsstring)) (fallback : jsstring)
  : jsstring :=
  match components ordered with
  | [] => fallback
  | present => join (lit ", ") present
  end.

(** A reverse lookup or a search fails: network failure, or a response
    that is not a success. *)
Inductive failed {A : Type} : reply A -> Prop :=
| failed_network : failed Rejected
| failed_status body : failed (Responded false body).

(** What one resolution hands to the hosting form: [onChange] with the
    address, then [onLocationFetched] with the location when the form
    passed that callback. *)
Definition notified (given : bool) (data : LocationData) : list upcall :=
  OnChange (address data) ::
  (if given then [OnLocationFetched data] else []).

(** The failure paths that leave a message or an empty result list:
    the device location is unsupported or reports an error, the reverse
    lookup of the GPS flow fails, a search request fails. *)
Inductive failure : event -> Prop :=
| failure_unsupported r : failure (UseMyLocation Unsupported r)
| failure_position code r : failure (UseMyLocation (PositionError code) r)
| failure_gps_lookup lat lng r :
    failed r -> failure (UseMyLocation (Position lat lng) r)
| failure_search r : failed r -> failure (SearchSettles r).

(** The successful resolutions of the three input modes. *)
Inductive resolution : event -> Prop :=
| resolution_search feature :
    Sanitizer.isValidCoord (snd (Photon.coordinates feature))
                           (fst (Photon.coordinates feature)) = true ->
    resolution (SelectCandidate feature)
| resolution_pin lat lng data :
    resolution (PinDrop lat lng (Responded true (Some data)))
| resolution_gps lat lng data :
    resolution (UseMyLocation (Position lat lng)
                              (Responded true (Some data))).

(** The part of the state the search effect does not touch. *)
Definition outside_search (st : State) :=
  (activeTab st, isLoading st, error st, searchQuery st, isSearching st,
   mapLat st, mapLng st, isReverseGeocoding st, confirmedAddress st,
   now st, inflight st, fetched st, upcalls st).

(** The part of the state a timer callback does not touch before its
    request settles. *)
Definition outside_callback (st : State) :=
  (activeTab st, isLoading st, error st, searchQuery st, mapLat st,
   mapLng st, isReverseGeocoding st, confirmedAddress st,
   searchDebounceRef st, effectCleanup st, now st, timers st,
   nextTimer st, upcalls st).

(** The timer that [searchDebounceRef.current] designates. *)
Definition designated (ref : option N) (t : timer) : bool :=
  match ref with
  | Some id => negb (id =? 0)%N && (timer_id t =? id)%N
  | None => false
  end.

(** The discipline of the debouncer: every pending timer is the one
    the ref designates, so that the next run of the effect cancels it. *)
Definition debounced (st : State) : Prop :=
  nextTimer st <> 0%N /\
  List.Forall (fun t => designated (searchDebounceRef st) t = true)
              (timers st).

(** The forward-search call for a query. *)
Definition search_call (encoded : jsstring) : request :=
  {| url := photon_url encoded; headers := [] |}.

(** The calls a timer issues when it fires: one, or none when the query
    cannot be encoded. *)
Definition calls_of (t : timer) : list request :=
  match encodeURIComponent (timer_query t) with
  | Some encoded => [search_call encoded]
  | None => []
  end.

(** A string all of whose code units are 16-bit. *)
Definition well_formed (s : jsstring) : Prop :=
  List.Forall (fun c => (c < 65536)%N) s.


(** How the encoding of a non-empty string starts: an unreserved unit
    stands for itself; any other unit, or surrogate pair, is escaped. *)
Inductive first_unit (c : code_unit) (rest : jsstring) (e : jsstring)
  : Prop :=
| first_plain e1 :
    is_unreserved c = true ->
    encodeURIComponent rest = Some e1 -> e = c :: e1 ->
    first_unit c rest e
| first_escaped e1 :
    is_unreserved c = false ->
    encodeURIComponent rest = Some e1 -> e = escape c ++ e1 ->
    first_unit c rest e
| first_pair t rest' e1 :
    is_unreserved c = false ->
    is_leading_surrogate c = true -> is_trailing_surrogate t = true ->
    rest = t :: rest' ->
    encodeURIComponent rest' = Some e1 ->
    e = escape (surrogate_pair c t) ++ e1 ->
    first_unit c rest e.

(** Where a call can come from: a reverse lookup, or the search for a
    well-formed query of at least two characters once trimmed. *)
Inductive origin : request -> Prop :=
| origin_reverse lat lng :
    origin {| url := nominatim_url lat lng; headers := NOMINATIM_HEADERS |}
| origin_search query encoded :
    well_formed query ->
    (2 <= JsString.length (trim query))%nat ->
    encodeURIComponent query = Some encoded ->
    origin (search_call encoded).

(** What holds of the searches of the component at any time: the query
    is well formed, a pending timer carries a well-formed query of at
    least two characters once trimmed, and every call has an origin. *)
Definition searched (st : State) : Prop :=
  well_formed (searchQuery st) /\
  List.Forall (fun t => well_formed (timer_query t) /\
                        (2 <= JsString.length (trim (timer_query t)))%nat)
              (timers st) /\
  List.Forall origin (fetched st).

Definition well_formed_field (field : option jsstring) : Prop :=
  match field with
  | Some s => well_formed s
  | None => True
  end.

(** The events whose strings are strings. *)
Definition well_formed_event (e : event) : Prop :=
  match e with
  | Keystroke text => well_formed text
  | SelectCandidate feature =>
    let p := Photon.props feature in
    well_formed_field (Photon.name p) /\
    well_formed_field (Photon.street p) /\
    well_formed_field (Photon.city p) /\
    well_formed_field (Photon.state p)
  | _ => True
  end.

(** A burst of typing after the query [previous]: each keystroke changes
    the query and is followed by less than 300 ms. *)
Fixpoint bursting (previous : jsstring) (burst : list (jsstring * N))
  : Prop :=
  match burst with
  | [] => True
  | (text, gap) :: rest =>
    text <> previous /\ (gap < 300)%N /\ bursting text rest
  end.

Definition typing (burst : list (jsstring * N)) : list event :=
  List.flat_map (fun k => [Keystroke (fst k); Elapse (snd k)]) burst.

(** The pending timers at any time: at most one, for the current query,
    which has at least two characters once trimmed, due in the future and
    at most 300 ms ahead. *)
Definition pending_ok (st : State) : Prop :=
  (List.length (timers st) <= 1)%nat /\
  List.Forall (fun t => timer_query t = searchQuery st /\
                        (2 <= JsString.length (trim (timer_query t)))%nat /\
                        (now st < due t <= now st + 300)%N)
              (timers st).

(** A decimal digit. *)
Definition is_digit (c : code_unit) : bool := ((48 <=? c) && (c <=? 57))%N.

(** The address of the last location handed to the hosting form. *)
Definition last_address (datas : list LocationData) : jsstring :=
  List.last (List.map address datas) [].

(** A number written with a sign, an integer part and exactly five
    decimals. *)
Definition five_decimals (s : jsstring) : Prop :=
  exists sign int frac,
    s = sign ++ int ++ lit "." ++ frac /\
    (sign = [] \/ sign = lit "-") /\
    int <> [] /\
    List.Forall (fun c => is_digit c = true) int /\
    List.Forall (fun c => is_digit c = true) frac /\
    List.length frac = 5%nat.

End Spec.

(** Inputs used as examples: the literals [25.2] and [55.3], a candidate
    of the forward search with every component, and properties without
    any component of an address. *)
Module Sample.
Import JsString JsNumber.

Definition lat_25_2 : number := of_decimal 252 (-1).
Definition lng_55_3 : number := of_decimal 553 (-1).

Definition burj : Photon.feature :=
  {| Photon.props :=
       {| Photon.name := Some (lit "Burj Khalifa");
          Photon.street := Some (lit "Sheikh Mohammed bin Rashid Boulevard");
          Photon.city := Some (lit "Dubai");
          Photon.state := Some (lit "Dubai");
          Photon.country := Some (lit "United Arab Emirates");
          Photon.postcode := None |};
     Photon.coordinates := (of_decimal 552744 (-4), of_decimal 251972 (-4)) |}.

Definition unnamed : Photon.properties :=
  {| Photon.name := None;
     Photon.street := None;
     Photon.city := None;
     Photon.state := None;
     Photon.country := Some (lit "United Arab Emirates");
     Photon.postcode := Some (lit "00000") |}.

Definition dubai_mall : Nominatim.response :=
  {| Nominatim.display_name :=
       lit "The Dubai Mall, Financial Center Street, Downtown Dubai, Dubai, United Arab Emirates";
     Nominatim.addr :=
       {| Nominatim.amenity := Some (lit "The Dubai Mall");
          Nominatim.road := Some (lit "Financial Center Street");
          Nominatim.suburb := Some (lit "Downtown Dubai");
          Nominatim.city := Some (lit "Dubai");
          Nominatim.state := Some (lit "Dubai");
          Nominatim.country := Some (lit "United Arab Emirates") |} |}.
End Sample.

(* ================================================================== *)
(** * Properties of the string built-ins *)
(* ================================================================== *)

Section StringFacts.
Import JsString.

Lemma trim_start_spec (s : jsstring) :
  exists pre,
    s = pre ++ trim_start s /\
    Forall (fun c => is_white_space c = true) pre /\
    (forall c, hd_error (trim_start s) = Some c -> is_white_space c = false).
Proof.
  induction s as [|c rest IH].
  - exists []. simpl. repeat split; [constructor | discriminate].
  - simpl. destruct (is_white_space c) eqn:Hc.
    + destruct IH as (pre & Heq & Hpre & Hhd).
      exists (c :: pre). simpl. repeat split.
      * f_equal. exact Heq.
      * constructor; assumption.
      * exact Hhd.
    + exists []. simpl. repeat split; [constructor|].
      intros c' Hc'. injection Hc' as <-. exact Hc.
Qed.

Lemma trim_start_suffix_nonempty (s t : jsstring) :
  trim_start (s ++ t) = trim_start s ++ t \/ trim_start s = [].
Proof.
  induction s as [|c rest IH]; simpl.
  - right. reflexivity.
  - destruct (is_white_space c); [exact IH | left; reflexivity].
Qed.

(** [trim] removes a run of white space at each end and leaves a string
    that neither starts nor ends with white space. *)
Lemma trim_spec (s : jsstring) :
  exists pre post,
    s = pre ++ trim s ++ post /\
    Forall (fun c => is_white_space c = true) pre /\
    Forall (fun c => is_white_space c = true) post /\
    (forall c, hd_error (trim s) = Some c -> is_white_space c = false) /\
    (forall c, hd_error (rev (trim s)) = Some c -> is_white_space c = false).
Proof.
  unfold trim, trim_end.
  destruct (trim_start_spec s) as (pre & Hs & Hpre & Hhd).
  destruct (trim_start_spec (rev (trim_start s))) as (tl & Ht & Htl & Hlast).
  set (t := trim_start s) in *.
  set (u := trim_start (rev t)) in *.
  assert (Ht' : t = rev u ++ rev tl).
  { rewrite <- rev_app_distr, <- Ht, rev_involutive. reflexivity. }
  exists pre, (rev tl). repeat split.
  - rewrite <- Ht'. exact Hs.
  - exact Hpre.
  - apply Forall_rev. exact Htl.
  - intros c Hc. apply Hhd. rewrite Ht'.
    destruct (rev u); [discriminate | exact Hc].
  - intros c Hc. rewrite rev_involutive in Hc. apply Hlast. exact Hc.
Qed.

Lemma replace_control_clean (raw : jsstring) :
  Forall (fun c => is_control c = false) (replace_control raw).
Proof.
  unfold replace_control. apply Forall_forall. intros c Hc.
  apply filter_In in Hc. destruct Hc as [_ Hc].
  apply negb_true_iff. exact Hc.
Qed.

Lemma trim_start_incl (s : jsstring) (c : code_unit) :
  In c (trim_start s) -> In c s.
Proof.
  induction s as [|d rest IH]; simpl; [tauto|].
  destruct (is_white_space d); simpl; tauto.
Qed.

Lemma trim_incl (s : jsstring) (c : code_unit) : In c (trim s) -> In c s.
Proof.
  unfold trim, trim_end. intros H.
  apply in_rev, trim_start_incl in H.
  apply in_rev in H. apply trim_start_incl. exact H.
Qed.

Lemma slice0_incl (n : nat) (s : jsstring) (c : code_unit) :
  In c (slice0 n s) -> In c s.
Proof.
  unfold slice0. revert s. induction n as [|n IH]; intros [|d s]; simpl;
    try tauto.
  intros [H|H]; [left; exact H | right; apply IH; exact H].
Qed.

Lemma join_nil_iff (sep : jsstring) (parts : list jsstring) :
  Forall (fun p => truthy p = true) parts ->
  (truthy (join sep parts) = false <-> parts = []).
Proof.
  intros H. destruct parts as [|p rest]; simpl.
  - tauto.
  - inversion H as [|? ? Hp _]; subst.
    destruct p as [|c p]; [discriminate|].
    destruct rest; simpl; split; discriminate.
Qed.

End StringFacts.

(* ================================================================== *)
(** * Comparison of binary64 values and coordinate validation *)
(* ================================================================== *)

Section NumberFacts.
Import JsString JsNumber Sanitizer.


Lemma digits2_pos_bounds (m : positive) :
  (2 ^ (Zpos (digits2_pos m) - 1) <= Zpos m < 2 ^ Zpos (digits2_pos m))%Z.
Proof.
  induction m as [m IH|m IH|]; simpl digits2_pos.
  - rewrite Pos2Z.inj_succ.
    replace (Z.succ (Zpos (digits2_pos m)) - 1)%Z
      with (Z.succ (Zpos (digits2_pos m) - 1))%Z by lia.
    rewrite !Z.pow_succ_r by lia. lia.
  - rewrite Pos2Z.inj_succ.
    replace (Z.succ (Zpos (digits2_pos m)) - 1)%Z
      with (Z.succ (Zpos (digits2_pos m) - 1))%Z by lia.
    rewrite !Z.pow_succ_r by lia. lia.
  - simpl. lia.
Qed.

(** The shape of a finite binary64 value: the exponent is at least
    [-1074], the significand has at most 53 bits, and exactly 53 above
    the least exponent. *)
Lemma binary64_shape (s : bool) (m : positive) (e : Z) :
  is_binary64 (S754_finite s m e) = true ->
  (-1074 <= e /\ Zpos m < 2 ^ 53 /\ (-1074 < e -> 2 ^ 52 <= Zpos m))%Z.
Proof.
  unfold is_binary64, valid_binary, bounded, canonical_mantissa, fexp, emin,
    prec, emax.
  intros H. apply andb_true_iff in H. destruct H as [H _].
  apply Z.eqb_eq in H.
  pose proof (digits2_pos_bounds m) as [Hlo Hhi].
  set (d := Zpos (digits2_pos m)) in *.
  assert (Hd : (0 < d)%Z) by (unfold d; lia).
  repeat split.
  - lia.
  - eapply Z.lt_le_trans; [exact Hhi|].
    apply Z.pow_le_mono_r; lia.
  - intros He. assert (d = 53)%Z by lia.
    replace 52%Z with (d - 1)%Z by lia. exact Hlo.
Qed.

Lemma magnitude_compare (m1 m2 : positive) (e1 e2 : Z) :
  is_binary64 (S754_finite false m1 e1) = true ->
  is_binary64 (S754_finite false m2 e2) = true ->
  match (e1 ?= e2)%Z with
  | Lt => Lt
  | Gt => Gt
  | Eq => Pos.compare_cont Eq m1 m2
  end = (Zpos m1 * 2 ^ (e1 + 1074) ?= Zpos m2 * 2 ^ (e2 + 1074))%Z.
Proof.
  intros H1 H2.
  apply binary64_shape in H1. destruct H1 as (He1 & Hm1 & Hn1).
  apply binary64_shape in H2. destruct H2 as (He2 & Hm2 & Hn2).
  destruct (Z.compare_spec e1 e2) as [Heq|Hlt|Hgt].
  - subst e2. symmetry.
    rewrite <- Zmult_compare_compat_r; [reflexivity|].
    apply Z.lt_gt, Z.pow_pos_nonneg; lia.
  - symmetry. apply Z.compare_lt_iff.
    specialize (Hn2 ltac:(lia)).
    assert (Hp : (2 * 2 ^ (e1 + 1074) <= 2 ^ (e2 + 1074))%Z).
    { rewrite <- Z.pow_succ_r by lia. apply Z.pow_le_mono_r; lia. }
    assert (H0 : (0 < 2 ^ (e1 + 1074))%Z) by (apply Z.pow_pos_nonneg; lia).
    change (2 ^ 53)%Z with (2 * 2 ^ 52)%Z in Hm1.
    nia.
  - symmetry. apply Z.compare_gt_iff.
    specialize (Hn1 ltac:(lia)).
    assert (Hp : (2 * 2 ^ (e2 + 1074) <= 2 ^ (e1 + 1074))%Z).
    { rewrite <- Z.pow_succ_r by lia. apply Z.pow_le_mono_r; lia. }
    assert (H0 : (0 < 2 ^ (e2 + 1074))%Z) by (apply Z.pow_pos_nonneg; lia).
    change (2 ^ 53)%Z with (2 * 2 ^ 52)%Z in Hm2.
    nia.
Qed.

Lemma is_binary64_sign (s s' : bool) (m : positive) (e : Z) :
  is_binary64 (S754_finite s m e) = is_binary64 (S754_finite s' m e).
Proof. reflexivity. Qed.

(** On finite binary64 values the IEEE comparison is the comparison of
    the values. *)
Lemma SFcompare_scaled (x y : number) :
  is_binary64 x = true -> is_binary64 y = true ->
  isFinite x = true -> isFinite y = true ->
  SFcompare x y = Some (scaled x ?= scaled y)%Z.
Proof.
  intros Hx Hy Fx Fy.
  destruct x as [sx|sx| |sx mx ex]; try discriminate;
  destruct y as [sy|sy| |sy my ey]; try discriminate.
  - reflexivity.
  - assert (0 < 2 ^ (ey + 1074))%Z
      by (apply binary64_shape in Hy; apply Z.pow_pos_nonneg; lia).
    unfold SFcompare, scaled, cond_Zopp. f_equal.
    destruct sy; symmetry;
      [apply Z.compare_gt_iff | apply Z.compare_lt_iff]; nia.
  - assert (0 < 2 ^ (ex + 1074))%Z
      by (apply binary64_shape in Hx; apply Z.pow_pos_nonneg; lia).
    unfold SFcompare, scaled, cond_Zopp. f_equal.
    destruct sx; symmetry;
      [apply Z.compare_lt_iff | apply Z.compare_gt_iff]; nia.
  - rewrite (is_binary64_sign sx false) in Hx.
    rewrite (is_binary64_sign sy false) in Hy.
    pose proof (magnitude_compare mx my ex ey Hx Hy) as Hc.
    assert (Px : (0 < 2 ^ (ex + 1074))%Z)
      by (apply binary64_shape in Hx; apply Z.pow_pos_nonneg; lia).
    assert (Py : (0 < 2 ^ (ey + 1074))%Z)
      by (apply binary64_shape in Hy; apply Z.pow_pos_nonneg; lia).
    unfold SFcompare, scaled, cond_Zopp. f_equal.
    destruct sx, sy.
    + rewrite !Z.mul_opp_l, Z.compare_opp.
      rewrite (Z.compare_antisym (Zpos mx * 2 ^ (ex + 1074))), <- Hc.
      destruct (ex ?= ey)%Z; reflexivity.
    + symmetry. apply Z.compare_lt_iff. nia.
    + symmetry. apply Z.compare_gt_iff. nia.
    + exact Hc.
Qed.

Lemma real_scaled (x : number) (q : Q) :
  is_binary64 x = true -> real x = Some q ->
  q == inject_Z (scaled x) * 2 ^ (-1074).
Proof.
  intros Hx Hq.
  destruct x as [s|s| |s m e]; try discriminate; injection Hq as <-.
  - reflexivity.
  - apply binary64_shape in Hx. destruct Hx as (He & _).
    unfold finite_value, scaled.
    rewrite inject_Z_mult, Zpower_Qpower by lia.
    change (inject_Z 2) with 2.
    rewrite <- Qmult_assoc, <- Qpower_plus by discriminate.
    replace (e + 1074 + -1074)%Z with e by lia.
    reflexivity.
Qed.

Lemma le_real (x y : number) (a b : Q) :
  is_binary64 x = true -> is_binary64 y = true ->
  real x = Some a -> real y = Some b ->
  (le x y = true <-> a <= b).
Proof.
  intros Hx Hy Ha Hb.
  assert (Fx : isFinite x = true) by (destruct x; try discriminate; reflexivity).
  assert (Fy : isFinite y = true) by (destruct y; try discriminate; reflexivity).
  unfold le. rewrite (SFcompare_scaled x y Hx Hy Fx Fy).
  rewrite (real_scaled x a Hx Ha), (real_scaled y b Hy Hb).
  rewrite Qmult_le_r by (apply Qpower_0_lt; reflexivity).
  rewrite <- Zle_Qle.
  destruct (Z.compare_spec (scaled x) (scaled y)); split; intros; try lia;
    try reflexivity; discriminate.
Qed.

Lemma ge_real (x y : number) (a b : Q) :
  is_binary64 x = true -> is_binary64 y = true ->
  real x = Some a -> real y = Some b ->
  (ge x y = true <-> b <= a).
Proof.
  intros Hx Hy Ha Hb.
  assert (Fx : isFinite x = true) by (destruct x; try discriminate; reflexivity).
  assert (Fy : isFinite y = true) by (destruct y; try discriminate; reflexivity).
  unfold ge. rewrite (SFcompare_scaled x y Hx Hy Fx Fy).
  rewrite (real_scaled x a Hx Ha), (real_scaled y b Hy Hb).
  rewrite Qmult_le_r by (apply Qpower_0_lt; reflexivity).
  rewrite <- Zle_Qle.
  destruct (Z.compare_spec (scaled x) (scaled y)); split; intros; try lia;
    try reflexivity; discriminate.
Qed.

Lemma isFinite_real (x : number) :
  isFinite x = true <-> exists q, real x = Some q.
Proof.
  destruct x; simpl; split; intros H; eauto; try discriminate H;
    destruct H as [q H]; discriminate H.
Qed.

(** The literals of [isValidCoord]. *)
Lemma real_ninety : exists q, real ninety = Some q /\ q == 90.
Proof. eexists. split; [reflexivity | vm_compute; reflexivity]. Qed.

Lemma real_minus_ninety : exists q, real (neg ninety) = Some q /\ q == -90.
Proof. eexists. split; [reflexivity | vm_compute; reflexivity]. Qed.

Lemma real_one_eighty : exists q, real one_eighty = Some q /\ q == 180.
Proof. eexists. split; [reflexivity | vm_compute; reflexivity]. Qed.

Lemma real_minus_one_eighty :
  exists q, real (neg one_eighty) = Some q /\ q == -180.
Proof. eexists. split; [reflexivity | vm_compute; reflexivity]. Qed.

(** A finite coordinate lies between the literals [-bound] and [bound]
    exactly when its value does. *)
Lemma within_bound (x bound : number) (a lo hi : Q) :
  is_binary64 x = true ->
  is_binary64 bound = true -> is_binary64 (neg bound) = true ->
  real x = Some a ->
  (exists q, real (neg bound) = Some q /\ q == lo) ->
  (exists q, real bound = Some q /\ q == hi) ->
  (ge x (neg bound) && le x bound = true <-> lo <= a /\ a <= hi).
Proof.
  intros Hx Hb Hnb Ha (ql & Hql & Elo) (qh & Hqh & Ehi).
  rewrite andb_true_iff.
  rewrite (ge_real x (neg bound) a ql Hx Hnb Ha Hql).
  rewrite (le_real x bound a qh Hx Hb Ha Hqh).
  rewrite Elo, Ehi. reflexivity.
Qed.

(** C1. For every pair of numbers, [isValidCoord] answers true exactly
    when both are finite, the latitude lies in [-90, 90] and the
    longitude in [-180, 180]. *)
Theorem isValidCoord_iff (lat lng : number) :
  is_binary64 lat = true -> is_binary64 lng = true ->
  (isValidCoord lat lng = true <->
   exists a b : Q,
     real lat = Some a /\ real lng = Some b /\
     (-90 <= a /\ a <= 90) /\ (-180 <= b /\ b <= 180)).
Proof.
  intros Hlat Hlng. unfold isValidCoord.
  rewrite <- !andb_assoc. rewrite andb_true_iff.
  rewrite (andb_true_iff (isFinite lng)).
  split.
  - intros (Flat & Flng & Hrange).
    apply isFinite_real in Flat. destruct Flat as [a Ha].
    apply isFinite_real in Flng. destruct Flng as [b Hb].
    exists a, b. split; [exact Ha | split; [exact Hb|]].
    rewrite andb_assoc in Hrange. apply andb_true_iff in Hrange. 
    destruct Hrange as [Rlat Rlng].
    split.
    + apply (within_bound lat ninety a (-90) 90 Hlat eq_refl eq_refl Ha
               real_minus_ninety real_ninety). exact Rlat.
    + apply (within_bound lng one_eighty b (-180) 180 Hlng eq_refl eq_refl Hb
               real_minus_one_eighty real_one_eighty). exact Rlng.
  - intros (a & b & Ha & Hb & Rlat & Rlng).
    split; [apply isFinite_real; eauto|].
    split; [apply isFinite_real; eauto|].
    rewrite andb_assoc. apply andb_true_iff. split.
    + apply (within_bound lat ninety a (-90) 90 Hlat eq_refl eq_refl Ha
               real_minus_ninety real_ninety). exact Rlat.
    + apply (within_bound lng one_eighty b (-180) 180 Hlng eq_refl eq_refl Hb
               real_minus_one_eighty real_one_eighty). exact Rlng.
Qed.

Lemma isValidCoord_iff_witness :
  is_binary64 Sample.lat_25_2 = true /\ is_binary64 Sample.lng_55_3 = true /\
  isValidCoord Sample.lat_25_2 Sample.lng_55_3 = true /\
  exists a b : Q,
    real Sample.lat_25_2 = Some a /\ real Sample.lng_55_3 = Some b /\
     (-90 <= a /\ a <= 90) /\ (-180 <= b /\ b <= 180).
Proof.
  split; [reflexivity | split; [reflexivity|]].
  assert (H : isValidCoord Sample.lat_25_2 Sample.lng_55_3 = true)
    by (vm_compute; reflexivity).
  split; [exact H|].
  apply (isValidCoord_iff Sample.lat_25_2 Sample.lng_55_3); 
    [reflexivity | reflexivity | exact H].
Defined.
End NumberFacts.

(* ================================================================== *)
(** * The sanitizer *)
(* ================================================================== *)

Section SanitizerFacts.
Import JsString JsNumber Sanitizer Spec.

Lemma sanitiseAddress_length (raw : jsstring) :
  (JsString.length (sanitiseAddress raw) <= 300)%nat.
Proof.
  unfold sanitiseAddress, slice0, JsString.length.
  rewrite length_firstn. apply Nat.le_min_l.
Qed.

Lemma sanitiseAddress_incl (raw : jsstring) (c : code_unit) :
  In c (sanitiseAddress raw) -> In c (replace_control raw).
Proof.
  unfold sanitiseAddress. intros H.
  apply slice0_incl, trim_incl in H. exact H.
Qed.

(** C2. Whatever the input string, the sanitized address has at most
    300 code units and none of them is a control character (U+0000 to
    U+001F, U+007F); it is obtained by deleting the control characters of
    the input, removing the white space at both ends of what remains, and
    keeping the first 300 code units of that. *)
Theorem sanitiseAddress_bounded_and_clean (raw : jsstring) :
  (JsString.length (sanitiseAddress raw) <= 300)%nat /\
  (forall c, In c (sanitiseAddress raw) -> ~ (c <= 31 \/ c = 127)%N) /\
  exists stripped trimmed pre post,
    stripped = List.filter (fun c => negb ((c <=? 31) || (c =? 127))%N) raw /\
    stripped = pre ++ trimmed ++ post /\
    Forall (fun c => is_white_space c = true) pre /\
    Forall (fun c => is_white_space c = true) post /\
    (forall c, hd_error trimmed = Some c -> is_white_space c = false) /\
    (forall c, hd_error (rev trimmed) = Some c -> is_white_space c = false) /\
    sanitiseAddress raw = List.firstn 300 trimmed.
Proof.
  split; [apply sanitiseAddress_length | split].
  - intros c Hc Hctl.
    apply sanitiseAddress_incl in Hc.
    pose proof (replace_control_clean raw) as Hclean.
    rewrite Forall_forall in Hclean. specialize (Hclean c Hc).
    unfold is_control in Hclean. apply orb_false_iff in Hclean.
    destruct Hclean as [Hle Heq].
    apply N.leb_gt in Hle. apply N.eqb_neq in Heq. lia.
  - destruct (trim_spec (replace_control raw))
      as (pre & post & Hsplit & Hpre & Hpost & Hhd & Hlast).
    exists (replace_control raw), (trim (replace_control raw)), pre, post.
    repeat split; assumption.
Qed.

End SanitizerFacts.

Section AssemblyFacts.
Import JsString JsNumber Sanitizer Spec Picker.

Lemma components_app (xs ys : list (option jsstring)) :
  components (xs ++ ys) = components xs ++ components ys.
Proof.
  unfold components. rewrite flat_map_app, filter_app. reflexivity.
Qed.

Lemma push_if_components (field : option jsstring) (parts : list jsstring) :
  push_if field parts = parts ++ components [field].
Proof.
  unfold push_if, components. destruct field as [s|]; simpl.
  - destruct (truthy s); [reflexivity | symmetry; apply app_nil_r].
  - symmetry. apply app_nil_r.
Qed.

Lemma components_truthy (ordered : list (option jsstring)) :
  Forall (fun p => truthy p = true) (components ordered).
Proof.
  unfold components. apply Forall_forall. intros p Hp.
  apply filter_In in Hp. tauto.
Qed.

Lemma pushes_components (fields : list (option jsstring)) :
  fold_left (fun parts f => push_if f parts) fields [] = components fields.
Proof.
  enough (H : forall acc,
             fold_left (fun parts f => push_if f parts) fields acc
             = acc ++ components fields) by apply (H []).
  induction fields as [|f fields IH]; intros acc; simpl.
  - symmetry. apply app_nil_r.
  - rewrite IH, push_if_components.
    change (f :: fields) with ([f] ++ fields).
    rewrite components_app, app_assoc. reflexivity.
Qed.

Lemma buildReadableAddress_assemble (p : Photon.properties) :
  buildReadableAddress p =
  sanitiseAddress
    (assemble [Photon.name p; Photon.street p; Photon.city p; Photon.state p]
              (lit "Unknown location")).
Proof.
  unfold buildReadableAddress, assemble.
  change (push_if (Photon.state p)
            (push_if (Photon.city p)
               (push_if (Photon.street p) (push_if (Photon.name p) []))))
    with (fold_left (fun parts f => push_if f parts)
            [Photon.name p; Photon.street p; Photon.city p; Photon.state p]
            []).
  rewrite pushes_components.
  pose proof (components_truthy
    [Photon.name p; Photon.street p; Photon.city p; Photon.state p]) as Ht.
  destruct (components _) as [|c cs] eqn:Hc.
  - reflexivity.
  - destruct (truthy (join (lit ", ") (c :: cs))) eqn:Hjoin.
    + reflexivity.
    + apply (join_nil_iff (lit ", ") _ Ht) in Hjoin. discriminate.
Qed.

Lemma reverseAddress_assemble (d : Nominatim.response) :
  reverseAddress d =
  sanitiseAddress
    (assemble
       (let a := Nominatim.addr d in
        [Nominatim.amenity a; Nominatim.road a; Nominatim.suburb a;
         Nominatim.city a; Nominatim.state a])
       (Nominatim.display_name d)).
Proof.
  unfold reverseAddress, assemble. cbv zeta.
  set (a := Nominatim.addr d).
  change (push_if (Nominatim.state a)
            (push_if (Nominatim.city a)
               (push_if (Nominatim.suburb a)
                  (push_if (Nominatim.road a)
                     (push_if (Nominatim.amenity a) [])))))
    with (fold_left (fun parts f => push_if f parts)
            [Nominatim.amenity a; Nominatim.road a; Nominatim.suburb a;
             Nominatim.city a; Nominatim.state a] []).
  rewrite pushes_components.
  destruct (components _); reflexivity.
Qed.

Lemma notifyLocation_exec (given : bool) (data : LocationData) (st : State) :
  notifyLocation given data st =
  (Done tt,
   with_error None
     (with_upcalls (upcalls st ++ notified given data)
        (with_confirmedAddress (address data) st))).
Proof.
  unfold notifyLocation, notified, bind, call, setConfirmedAddress, setError,
    modify, ret.
  destruct given; destruct st; simpl;
    unfold with_error, with_upcalls, with_confirmedAddress; simpl;
    rewrite <- ?app_assoc; reflexivity.
Qed.

End AssemblyFacts.

(* ================================================================== *)
(** * The handlers *)
(* ================================================================== *)

(** Linear arithmetic with division and remainder by constants. *)
Ltac lia_div := zify; Z.to_euclidean_division_equations; lia.

(** Unfolds the commands of a handler down to the resulting state. *)
Ltac run_handler :=
  cbv beta iota zeta delta
    [Picker.step Picker.run Picker.handle Picker.exec
     Picker.bind Picker.ret Picker.throw Picker.await Picker.gets Picker.modify
     Picker.try_catch_finally Picker.settled Picker.json
     Picker.notifyLocation Picker.call Picker.fetch
     Picker.handleSearchSelect
     Picker.handlePinDrop Picker.handlePinDrop_begin Picker.handlePinDrop_resume
     Picker.fetchGpsLocation Picker.gpsSuccess_begin Picker.gpsSuccess_resume
     Picker.gpsError Picker.selectTab
     Picker.searchCallback_resume
     Picker.setActiveTab Picker.setIsLoading Picker.setError
     Picker.setSearchQuery Picker.setSearchResults Picker.setIsSearching
     Picker.setMapLat Picker.setMapLng Picker.setIsReverseGeocoding
     Picker.setConfirmedAddress
     Picker.with_activeTab Picker.with_isLoading Picker.with_error
     Picker.with_searchQuery Picker.with_searchResults Picker.with_isSearching
     Picker.with_mapLat Picker.with_mapLng Picker.with_isReverseGeocoding
     Picker.with_confirmedAddress Picker.with_searchDebounceRef
     Picker.with_effectCleanup Picker.with_now Picker.with_timers
     Picker.with_nextTimer Picker.with_inflight Picker.with_fetched
     Picker.with_upcalls
     Picker.activeTab Picker.isLoading Picker.error Picker.searchQuery
     Picker.searchResults Picker.isSearching Picker.mapLat Picker.mapLng
     Picker.isReverseGeocoding Picker.confirmedAddress
     Picker.searchDebounceRef Picker.effectCleanup Picker.now Picker.timers
     Picker.nextTimer Picker.inflight Picker.fetched Picker.upcalls
     fst snd negb].

(** Unfolds the search effect as well. *)
Ltac run_effect :=
  cbv beta iota zeta delta
    [Picker.render_after Picker.rerunSearchEffect Picker.searchEffect
     Picker.clearDebounce Picker.setTimeout Picker.clearTimeout];
  run_handler.

Section HandlerFacts.
Import JsString JsNumber Sanitizer Spec Picker.

Variable given : bool.

(** The location a pin drop falls back to. *)
Lemma handlePinDrop_failed (lat lng : number) (r : reply Nominatim.response)
    (st : State) :
  failed r ->
  let fallback :=
    {| address := toFixed lat 5 ++ lit ", " ++ toFixed lng 5;
       latitude := toString lat;
       longitude := toString lng |} in
  let st' := exec (handlePinDrop given lat lng r) st in
  upcalls st' = upcalls st ++ notified given fallback /\
  confirmedAddress st' = address fallback /\
  error st' = None.
Proof.
  intros Hr. destruct st; destruct Hr; destruct given; run_handler;
    rewrite <- ?app_assoc; repeat split; reflexivity.
Qed.

End HandlerFacts.

Section EffectFacts.
Import JsString JsNumber Sanitizer Spec Picker.

Lemma render_after_runs (previous : jsstring) (st : State) :
  render_after previous st = (Done tt, exec (render_after previous) st).
Proof.
  destruct st. run_effect.
  repeat match goal with
         | |- context [if ?b then _ else _] => destruct b
         | |- context [match ?o with Some _ => _ | None => _ end] => destruct o
         end; reflexivity.
Qed.

Lemma render_after_frame (previous : jsstring) (st : State) :
  outside_search (exec (render_after previous) st) = outside_search st.
Proof.
  destruct st. unfold outside_search. run_effect.
  repeat match goal with
         | |- context [if ?b then _ else _] => destruct b
         | |- context [match ?o with Some _ => _ | None => _ end] => destruct o
         end; reflexivity.
Qed.
End EffectFacts.

Section ResolutionFacts.
Import JsString JsNumber Sanitizer Spec Picker.
Variable given : bool.

Lemma exec_then_render (m : Cmd unit) (previous : jsstring) (st st1 : State) :
  m st = (Done tt, st1) ->
  exec (bind m (fun _ => render_after previous)) st
  = exec (render_after previous) st1.
Proof. intros H. unfold exec, bind. rewrite H. reflexivity. Qed.

(** A candidate with valid coordinates resolves to its assembled
    address and its coordinates. *)
Lemma handleSearchSelect_valid (feature : Photon.feature) (st : State) :
  isValidCoord (snd (Photon.coordinates feature))
               (fst (Photon.coordinates feature)) = true ->
  let address := buildReadableAddress (Photon.props feature) in
  let data :=
    {| address := address;
       latitude := toString (snd (Photon.coordinates feature));
       longitude := toString (fst (Photon.coordinates feature)) |} in
  handleSearchSelect given feature st =
  (Done tt,
   with_error None
     (with_upcalls (upcalls st ++ notified given data)
        (with_confirmedAddress address
           (with_searchResults [] (with_searchQuery address st))))).
Proof.
  intros Hvalid. unfold handleSearchSelect.
  destruct (Photon.coordinates feature) as [lng lat]. simpl in Hvalid.
  rewrite Hvalid. cbv beta iota zeta delta [negb].
  unfold bind at 1. unfold setSearchQuery at 1. unfold modify at 1.
  unfold bind at 1. unfold setSearchResults at 1. unfold modify at 1.
  rewrite notifyLocation_exec. reflexivity.
Qed.

Lemma handleSearchSelect_invalid (feature : Photon.feature) (st : State) :
  isValidCoord (snd (Photon.coordinates feature))
               (fst (Photon.coordinates feature)) = false ->
  handleSearchSelect given feature st = (Done tt, st).
Proof.
  intros Hinvalid. unfold handleSearchSelect.
  destruct (Photon.coordinates feature) as [lng lat]. simpl in Hinvalid.
  rewrite Hinvalid. reflexivity.
Qed.

Lemma select_candidate_valid (feature : Photon.feature) (st : State) :
  isValidCoord (snd (Photon.coordinates feature))
               (fst (Photon.coordinates feature)) = true ->
  let address := buildReadableAddress (Photon.props feature) in
  let data :=
    {| address := address;
       latitude := toString (snd (Photon.coordinates feature));
       longitude := toString (fst (Photon.coordinates feature)) |} in
  let st' := step given st (SelectCandidate feature) in
  upcalls st' = upcalls st ++ notified given data /\
  confirmedAddress st' = address /\
  error st' = None /\
  mapLat st' = mapLat st /\ mapLng st' = mapLng st /\
  isReverseGeocoding st' = isReverseGeocoding st /\
  isLoading st' = isLoading st.
Proof.
  intros Hvalid. cbv zeta.
  pose proof (handleSearchSelect_valid feature st Hvalid) as Hsel.
  cbv zeta in Hsel.
  change (step given st (SelectCandidate feature))
    with (exec (bind (handleSearchSelect given feature)
                     (fun _ => render_after (searchQuery st))) st).
  rewrite (exec_then_render _ _ _ _ Hsel).
  match goal with
  | |- context [exec (render_after ?p) ?s] =>
    pose proof (render_after_frame p s) as Hf
  end.
  unfold outside_search in Hf.
  injection Hf as _ Hload Herr _ _ Hlat Hlng Hrev Hconf _ _ _ Hup.
  rewrite Hload, Herr, Hlat, Hlng, Hrev, Hconf, Hup.
  destruct st; repeat split; reflexivity.
Qed.

(** A reverse lookup that succeeds resolves the pin to the assembled
    address. *)
Lemma pin_drop_found (lat lng : number) (data : Nominatim.response)
    (st : State) :
  let found :=
    {| address := reverseAddress data;
       latitude := toString lat;
       longitude := toString lng |} in
  let st' := step given st (PinDrop lat lng (Responded true (Some data))) in
  upcalls st' = upcalls st ++ notified given found /\
  confirmedAddress st' = address found /\
  error st' = None.
Proof.
  destruct st; destruct given; run_handler;
    rewrite <- ?app_assoc; repeat split; reflexivity.
Qed.

(** A pin drop moves the pin and leaves the cells of the other two
    modes alone, whatever the reverse lookup answers. *)
Lemma pin_drop_frame (lat lng : number) (r : reply Nominatim.response)
    (st : State) :
  let st' := step given st (PinDrop lat lng r) in
  mapLat st' = Some lat /\ mapLng st' = Some lng /\
  searchQuery st' = searchQuery st /\
  searchResults st' = searchResults st /\
  isSearching st' = isSearching st /\
  searchDebounceRef st' = searchDebounceRef st /\
  timers st' = timers st /\
  isLoading st' = isLoading st.
Proof.
  destruct st; destruct given; destruct r as [|[|] [data|]]; run_handler;
    repeat split; reflexivity.
Qed.

(** The GPS flow, the position known and the reverse lookup answered. *)
Lemma gps_found (lat lng : number) (data : Nominatim.response) (st : State) :
  let found :=
    {| address := reverseAddress data;
       latitude := toString lat;
       longitude := toString lng |} in
  let st' :=
    step given st (UseMyLocation (Position lat lng)
                                 (Responded true (Some data))) in
  upcalls st' = upcalls st ++ notified given found /\
  confirmedAddress st' = address found /\
  error st' = None /\
  mapLat st' = Some lat /\ mapLng st' = Some lng.
Proof.
  destruct st; destruct given; run_handler;
    rewrite <- ?app_assoc; repeat split; reflexivity.
Qed.

Lemma gps_lookup_failed (lat lng : number) (r : reply Nominatim.response)
    (st : State) :
  failed r ->
  let st' := step given st (UseMyLocation (Position lat lng) r) in
  upcalls st' = upcalls st /\
  confirmedAddress st' = confirmedAddress st /\
  error st' = Some (lit "Failed to get address. Please try again.").
Proof.
  intros Hr. destruct st; destruct Hr; run_handler;
    repeat split; reflexivity.
Qed.

Lemma gps_error (code : N) (r : reply Nominatim.response) (st : State) :
  let st' := step given st (UseMyLocation (PositionError code) r) in
  upcalls st' = upcalls st /\
  confirmedAddress st' = confirmedAddress st /\
  error st' =
  Some (if (code =? 1)%N then
          lit "Location permission denied. Please enable it in your browser settings."
        else if (code =? 2)%N then
          lit "Location unavailable. Please try again."
        else if (code =? 3)%N then
          lit "Location request timed out. Please try again."
        else lit "An error occurred getting your location.").
Proof.
  destruct st. run_handler.
  change PERMISSION_DENIED with 1%N; change POSITION_UNAVAILABLE with 2%N;
    change TIMEOUT with 3%N.
  destruct (code =? 1)%N; [|destruct (code =? 2)%N; [|destruct (code =? 3)%N]];
    repeat split; reflexivity.
Qed.

Lemma gps_unsupported (r : reply Nominatim.response) (st : State) :
  let st' := step given st (UseMyLocation Unsupported r) in
  upcalls st' = upcalls st /\
  confirmedAddress st' = confirmedAddress st /\
  error st' = Some (lit "Geolocation is not supported by your browser").
Proof. destruct st. run_handler. repeat split; reflexivity. Qed.

(** A search request that settles touches neither the confirmed
    address nor the hosting form. *)
Lemma search_settles_frame (r : reply Photon.response) (st : State) :
  let st' := step given st (SearchSettles r) in
  upcalls st' = upcalls st /\
  confirmedAddress st' = confirmedAddress st /\
  error st' = error st.
Proof.
  destruct st as [? ? ? ? ? ? ? ? ? ? ? ? ? ? ? [|n] ? ?];
    destruct r as [|[|] [data|]]; run_handler; repeat split; reflexivity.
Qed.

Lemma search_failed_empties (r : reply Photon.response) (st : State) :
  failed r -> (0 < inflight st)%nat ->
  searchResults (step given st (SearchSettles r)) = [].
Proof.
  intros Hr Hn. destruct st as [? ? ? ? ? ? ? ? ? ? ? ? ? ? ? [|n] ? ?];
    [simpl in Hn; lia|].
  destruct Hr; run_handler; reflexivity.
Qed.
End ResolutionFacts.

Section ResolutionClaims.
Import JsString JsNumber Sanitizer Spec Picker.
Import Sample.

(** C3 (amended). Address assembly composes the components that are
    present in a fixed order with [", "] and sanitizes the result: name,
    street, city, state for a candidate of the forward search, with the
    fixed text "Unknown location" when none is present; amenity, road,
    suburb, city, state for a reverse lookup, with the provider's display
    name when none is present.  Selecting a candidate with valid
    coordinates hands the hosting form the address so assembled and the
    coordinates as strings; so do a pin drop and the GPS flow when the
    reverse lookup succeeds. *)
Theorem address_assembly_precedence (given : bool) :
  (forall p : Photon.properties,
      buildReadableAddress p =
      sanitiseAddress
        (assemble [Photon.name p; Photon.street p; Photon.city p;
                   Photon.state p]
                  (lit "Unknown location"))) /\
  (forall d : Nominatim.response,
      reverseAddress d =
      sanitiseAddress
        (assemble [Nominatim.amenity (Nominatim.addr d);
                   Nominatim.road (Nominatim.addr d);
                   Nominatim.suburb (Nominatim.addr d);
                   Nominatim.city (Nominatim.addr d);
                   Nominatim.state (Nominatim.addr d)]
                  (Nominatim.display_name d))) /\
  (forall (st : State) (feature : Photon.feature),
      isValidCoord (snd (Photon.coordinates feature))
                   (fst (Photon.coordinates feature)) = true ->
      upcalls (step given st (SelectCandidate feature)) =
      upcalls st ++
      notified given
        {| address := buildReadableAddress (Photon.props feature);
           latitude := toString (snd (Photon.coordinates feature));
           longitude := toString (fst (Photon.coordinates feature)) |}) /\
  (forall (st : State) (lat lng : number) (d : Nominatim.response),
      upcalls (step given st (PinDrop lat lng (Responded true (Some d)))) =
      upcalls st ++
      notified given {| address := reverseAddress d;
                        latitude := toString lat;
                        longitude := toString lng |}) /\
  (forall (st : State) (lat lng : number) (d : Nominatim.response),
      upcalls (step given st (UseMyLocation (Position lat lng)
                                            (Responded true (Some d)))) =
      upcalls st ++
      notified given {| address := reverseAddress d;
                        latitude := toString lat;
                        longitude := toString lng |}).
Proof.
  split; [exact buildReadableAddress_assemble|].
  split; [exact reverseAddress_assemble|].
  split; [|split].
  - intros st feature Hvalid.
    apply (select_candidate_valid given feature st Hvalid).
  - intros st lat lng d. apply (pin_drop_found given lat lng d st).
  - intros st lat lng d. apply (gps_found given lat lng d st).
Qed.

Lemma address_assembly_precedence_witness :
  isValidCoord (snd (Photon.coordinates burj))
               (fst (Photon.coordinates burj)) = true /\
  upcalls (step true mounted (SelectCandidate burj)) =
  upcalls mounted ++
  notified true
    {| address := buildReadableAddress (Photon.props burj);
       latitude := toString (snd (Photon.coordinates burj));
       longitude := toString (fst (Photon.coordinates burj)) |}.
Proof.
  assert (H : isValidCoord (snd (Photon.coordinates burj))
                           (fst (Photon.coordinates burj)) = true)
    by (vm_compute; reflexivity).
  split; [exact H|].
  exact (proj1 (proj2 (proj2 (address_assembly_precedence true)))
           mounted burj H).
Defined.

(** C3 as stated fails for the forward search: properties without name,
    street, city and state assemble to the fixed text "Unknown location",
    which is none of the strings the provider sent. *)
Lemma forward_search_fallback_is_fixed_text :
  components [Photon.name unnamed; Photon.street unnamed;
              Photon.city unnamed; Photon.state unnamed] = [] /\
  buildReadableAddress unnamed = lit "Unknown location" /\
  ~ In (Some (buildReadableAddress unnamed))
       [Photon.name unnamed; Photon.street unnamed; Photon.city unnamed;
        Photon.state unnamed; Photon.country unnamed;
        Photon.postcode unnamed].
Proof.
  split; [reflexivity | split; [vm_compute; reflexivity|]].
  vm_compute. intros H.
  repeat (destruct H as [H|H]; [discriminate H|]). exact H.
Qed.

(** The example of the specification: picking the candidate the search
    for "Burj" returned. *)
Example select_burj :
  upcalls (step true mounted (SelectCandidate burj)) =
  [ OnChange
      (lit "Burj Khalifa, Sheikh Mohammed bin Rashid Boulevard, Dubai, Dubai");
    OnLocationFetched
      {| address :=
           lit "Burj Khalifa, Sheikh Mohammed bin Rashid Boulevard, Dubai, Dubai";
         latitude := lit "25.1972";
         longitude := lit "55.2744" |} ].
Proof. vm_compute. reflexivity. Qed.

(** C4 (amended). When the reverse lookup fails (network failure or a
    response that is not a success), the map-pin flow still resolves: it
    hands the hosting form the two coordinates, each formatted by
    [toFixed(5)], as the address; the GPS flow resolves nothing and shows
    "Failed to get address. Please try again." *)
Theorem reverse_lookup_failure (given : bool) (lat lng : number)
    (r : reply Nominatim.response) (st : State) :
  failed r ->
  (let st' := step given st (PinDrop lat lng r) in
   upcalls st' =
   upcalls st ++
   notified given {| address := toFixed lat 5 ++ lit ", " ++ toFixed lng 5;
                     latitude := toString lat;
                     longitude := toString lng |} /\
   confirmedAddress st' = toFixed lat 5 ++ lit ", " ++ toFixed lng 5 /\
   error st' = None) /\
  (let st' := step given st (UseMyLocation (Position lat lng) r) in
   upcalls st' = upcalls st /\
   confirmedAddress st' = confirmedAddress st /\
   error st' = Some (lit "Failed to get address. Please try again.")).
Proof.
  intros Hr. split.
  - apply (handlePinDrop_failed given lat lng r st Hr).
  - apply (gps_lookup_failed given lat lng r st Hr).
Qed.

Lemma reverse_lookup_failure_witness :
  failed (@Rejected Nominatim.response) /\
  (let st' := step true mounted (PinDrop lat_25_2 lng_55_3 Rejected) in
   upcalls st' =
   upcalls mounted ++
   notified true
     {| address := toFixed lat_25_2 5 ++ lit ", " ++ toFixed lng_55_3 5;
        latitude := toString lat_25_2;
        longitude := toString lng_55_3 |} /\
   confirmedAddress st' = toFixed lat_25_2 5 ++ lit ", " ++ toFixed lng_55_3 5 /\
   error st' = None) /\
  (let st' :=
     step true mounted (UseMyLocation (Position lat_25_2 lng_55_3) Rejected) in
   upcalls st' = upcalls mounted /\
   confirmedAddress st' = confirmedAddress mounted /\
   error st' = Some (lit "Failed to get address. Please try again.")).
Proof.
  split; [constructor|].
  apply (reverse_lookup_failure true lat_25_2 lng_55_3 Rejected mounted).
  constructor.
Defined.

(** C4 as stated fails in the GPS flow: with the device at (25.2, 55.3)
    and the reverse lookup rejected, nothing is handed to the hosting
    form and an error message is shown. *)
Lemma gps_lookup_failure_emits_nothing :
  let st' :=
    step true mounted (UseMyLocation (Position lat_25_2 lng_55_3) Rejected) in
  upcalls st' = [] /\
  confirmedAddress st' = [] /\
  error st' = Some (lit "Failed to get address. Please try again.").
Proof. vm_compute. repeat split; reflexivity. Qed.

(** C5. A pin dropped at (25.2, 55.3) whose reverse lookup fails hands
    the hosting form the address "25.20000, 55.30000" with latitude
    "25.2" and longitude "55.3", and confirms that address. *)
Theorem pin_drop_failure_at_25_2_55_3 (given : bool)
    (r : reply Nominatim.response) (st : State) :
  failed r ->
  let st' := step given st (PinDrop lat_25_2 lng_55_3 r) in
  upcalls st' =
  upcalls st ++
  OnChange (lit "25.20000, 55.30000") ::
  (if given
   then [OnLocationFetched {| address := lit "25.20000, 55.30000";
                              latitude := lit "25.2";
                              longitude := lit "55.3" |}]
   else []) /\
  confirmedAddress st' = lit "25.20000, 55.30000".
Proof.
  intros Hr.
  destruct (handlePinDrop_failed given lat_25_2 lng_55_3 r st Hr)
    as (Hup & Hconf & _).
  assert (Haddr : toFixed lat_25_2 5 ++ lit ", " ++ toFixed lng_55_3 5
                  = lit "25.20000, 55.30000") by (vm_compute; reflexivity).
  assert (Hlat : toString lat_25_2 = lit "25.2") by (vm_compute; reflexivity).
  assert (Hlng : toString lng_55_3 = lit "55.3") by (vm_compute; reflexivity).
  rewrite Haddr, Hlat, Hlng in Hup. rewrite Haddr in Hconf.
  split; [exact Hup | exact Hconf].
Qed.

Lemma pin_drop_failure_at_25_2_55_3_witness :
  failed (@Rejected Nominatim.response) /\
  let st' := step true mounted (PinDrop lat_25_2 lng_55_3 Rejected) in
  upcalls st' =
  upcalls mounted ++
  [OnChange (lit "25.20000, 55.30000");
   OnLocationFetched {| address := lit "25.20000, 55.30000";
                        latitude := lit "25.2";
                        longitude := lit "55.3" |}] /\
  confirmedAddress st' = lit "25.20000, 55.30000".
Proof.
  split; [constructor|].
  apply (pin_drop_failure_at_25_2_55_3 true Rejected mounted).
  constructor.
Defined.

(** C8 (amended). The failure paths other than a failed reverse lookup
    of the map-pin flow leave the confirmed location as it was: when the
    device location is unsupported, denied, unavailable, timed out or
    fails otherwise, when the reverse lookup of the GPS flow fails, and
    when a search request fails, the confirmed address is unchanged and
    neither callback of the hosting form is called.  A denied permission
    shows "Location permission denied. Please enable it in your browser
    settings." *)
Theorem failures_keep_confirmed_location (given : bool) (e : event)
    (st : State) :
  failure e ->
  confirmedAddress (step given st e) = confirmedAddress st /\
  upcalls (step given st e) = upcalls st /\
  (forall r, e = UseMyLocation (PositionError PERMISSION_DENIED) r ->
     error (step given st e) =
     Some (lit "Location permission denied. Please enable it in your browser settings.")).
Proof.
  intros He. destruct He as [r|code r|lat lng r Hr|r Hr].
  - destruct (gps_unsupported given r st) as (Hup & Hconf & _).
    split; [exact Hconf | split; [exact Hup | discriminate]].
  - destruct (gps_error given code r st) as (Hup & Hconf & Herr).
    split; [exact Hconf | split; [exact Hup |]].
    intros r' Heq. injection Heq as -> _. exact Herr.
  - destruct (gps_lookup_failed given lat lng r st Hr) as (Hup & Hconf & _).
    split; [exact Hconf | split; [exact Hup | discriminate]].
  - destruct (search_settles_frame given r st) as (Hup & Hconf & _).
    split; [exact Hconf | split; [exact Hup | discriminate]].
Qed.

Lemma failures_keep_confirmed_location_witness :
  let e := UseMyLocation (PositionError PERMISSION_DENIED) Rejected in
  let st := step true mounted (SelectCandidate burj) in
  failure e /\
  confirmedAddress (step true st e) = confirmedAddress st /\
  upcalls (step true st e) = upcalls st /\
  (forall r, e = UseMyLocation (PositionError PERMISSION_DENIED) r ->
     error (step true st e) =
     Some (lit "Location permission denied. Please enable it in your browser settings.")).
Proof.
  split; [constructor|].
  apply (failures_keep_confirmed_location true
           (UseMyLocation (PositionError PERMISSION_DENIED) Rejected)
           (step true mounted (SelectCandidate burj))).
  constructor.
Defined.

(** C8 as stated fails in the map-pin flow: after the candidate of the
    search for "Burj" was confirmed, a pin dropped at (25.2, 55.3) whose
    reverse lookup is rejected replaces the confirmed address and calls
    both callbacks of the hosting form. *)
Lemma pin_drop_failure_replaces_confirmed_location :
  let st := step true mounted (SelectCandidate burj) in
  let st' := step true st (PinDrop lat_25_2 lng_55_3 Rejected) in
  confirmedAddress st =
  lit "Burj Khalifa, Sheikh Mohammed bin Rashid Boulevard, Dubai, Dubai" /\
  confirmedAddress st' = lit "25.20000, 55.30000" /\
  upcalls st' =
  upcalls st ++
  [OnChange (lit "25.20000, 55.30000");
   OnLocationFetched {| address := lit "25.20000, 55.30000";
                        latitude := lit "25.2";
                        longitude := lit "55.3" |}].
Proof. vm_compute. repeat split; reflexivity. Qed.

(** C9. [notifyLocation] calls [onChange] with the address, confirms the
    address, calls [onLocationFetched] with the location when the hosting
    form passed it, and clears the error message; so after a successful
    resolution by any of the three input modes no error message is
    shown. *)
Theorem resolution_clears_error (given : bool) :
  (forall (data : LocationData) (st : State),
      let st' := exec (notifyLocation given data) st in
      upcalls st' =
      upcalls st ++
      OnChange (address data) ::
      (if given then [OnLocationFetched data] else []) /\
      confirmedAddress st' = address data /\
      error st' = None) /\
  (forall (e : event) (st : State),
      resolution e -> error (step given st e) = None).
Proof.
  split.
  - intros data st. cbv zeta. unfold exec.
    rewrite notifyLocation_exec. destruct st; repeat split; reflexivity.
  - intros e st He. destruct He as [feature Hvalid|lat lng d|lat lng d].
    + apply (select_candidate_valid given feature st Hvalid).
    + apply (pin_drop_found given lat lng d st).
    + apply (gps_found given lat lng d st).
Qed.

Lemma resolution_clears_error_witness :
  let denied :=
    step true mounted
         (UseMyLocation (PositionError PERMISSION_DENIED) Rejected) in
  let e := PinDrop lat_25_2 lng_55_3 (Responded true (Some dubai_mall)) in
  error denied =
  Some (lit "Location permission denied. Please enable it in your browser settings.") /\
  resolution e /\
  error (step true denied e) = None.
Proof.
  split; [vm_compute; reflexivity|].
  assert (H : resolution (PinDrop lat_25_2 lng_55_3
                                  (Responded true (Some dubai_mall))))
    by constructor.
  split; [exact H|].
  exact (proj2 (resolution_clears_error true) _ _ H).
Defined.

(** C10. When the GPS flow resolves, the map pin moves to the position
    the device reported.  Selecting a candidate of the search leaves the
    cells of the map-pin and GPS modes as they were, and a pin drop
    leaves the cells of the search and GPS modes as they were. *)
Theorem gps_resolution_moves_pin (given : bool) (st : State) :
  (forall (lat lng : number) (d : Nominatim.response),
      let st' := step given st (UseMyLocation (Position lat lng)
                                              (Responded true (Some d))) in
      mapLat st' = Some lat /\ mapLng st' = Some lng) /\
  (forall feature : Photon.feature,
      let st' := step given st (SelectCandidate feature) in
      mapLat st' = mapLat st /\ mapLng st' = mapLng st /\
      isReverseGeocoding st' = isReverseGeocoding st /\
      isLoading st' = isLoading st) /\
  (forall (lat lng : number) (r : reply Nominatim.response),
      let st' := step given st (PinDrop lat lng r) in
      searchQuery st' = searchQuery st /\
      searchResults st' = searchResults st /\
      isSearching st' = isSearching st /\
      searchDebounceRef st' = searchDebounceRef st /\
      timers st' = timers st /\
      isLoading st' = isLoading st).
Proof.
  split; [|split].
  - intros lat lng d. apply (gps_found given lat lng d st).
  - intros feature. cbv zeta.
    destruct (isValidCoord (snd (Photon.coordinates feature))
                           (fst (Photon.coordinates feature))) eqn:Hvalid.
    + apply (select_candidate_valid given feature st Hvalid).
    + pose proof (handleSearchSelect_invalid given feature st Hvalid) as Hsel.
      change (step given st (SelectCandidate feature))
        with (exec (bind (handleSearchSelect given feature)
                         (fun _ => render_after (searchQuery st))) st).
      rewrite (exec_then_render _ _ _ _ Hsel).
      pose proof (render_after_frame (searchQuery st) st) as Hf.
      unfold outside_search in Hf.
      injection Hf as _ Hload _ _ _ Hlat Hlng Hrev _ _ _ _ _.
      repeat split; assumption.
  - intros lat lng r. apply (pin_drop_frame given lat lng r st).
Qed.
End ResolutionClaims.

Section DebounceFacts.
Import JsString JsNumber Sanitizer Spec Picker.

Lemma designated_filter (id : N) (ts : list timer) :
  id <> 0%N ->
  Forall (fun t => designated (Some id) t = true) ts ->
  filter (fun t => negb (timer_id t =? id)%N) ts = [].
Proof.
  intros Hid H. induction H as [|t ts Ht _ IH]; simpl.
  - reflexivity.
  - unfold designated in Ht. apply andb_true_iff in Ht.
    destruct Ht as [_ Ht]. rewrite Ht. exact IH.
Qed.

Lemma clearDebounce_debounced (st : State) :
  debounced st -> clearDebounce st = (Done tt, with_timers [] st).
Proof.
  intros [_ H].
  destruct st as [tab load err query results searching lat lng rev conf
                  ref cleanup clock timers next infl reqs ups].
  simpl in H. run_effect.
  destruct ref as [id|].
  - destruct (N.eqb_spec id 0) as [->|Hid].
    + destruct timers as [|t ts]; [reflexivity|].
      inversion H as [|? ? Ht _]; subst. simpl in Ht. discriminate Ht.
    + change (filter _ timers)
        with (filter (fun t => negb (timer_id t =? id)%N) timers).
      rewrite (designated_filter id timers Hid H). reflexivity.
  - destruct timers as [|t ts]; [reflexivity|].
    inversion H as [|? ? Ht _]; subst. discriminate Ht.
Qed.

(** A run of the effect under the discipline: the pending timer is
    cancelled; a query of fewer than two characters once trimmed clears
    the result list, any other schedules the one timer, 300 ms ahead. *)
Lemma rerunSearchEffect_debounced (st : State) :
  debounced st ->
  rerunSearchEffect st =
  (Done tt,
   if (JsString.length (trim (searchQuery st)) <? 2)%nat
   then with_effectCleanup false (with_searchResults [] (with_timers [] st))
   else
     with_effectCleanup true
       (with_searchDebounceRef (Some (nextTimer st))
          (with_nextTimer (N.succ (nextTimer st))
             (with_timers [{| timer_id := nextTimer st;
                              due := (now st + 300)%N;
                              timer_query := searchQuery st |}] st)))).
Proof.
  intros Hst.
  assert (Hst' : debounced (with_timers [] st)).
  { destruct Hst as [Hn _]. split; [destruct st; exact Hn | destruct st; constructor]. }
  unfold rerunSearchEffect, searchEffect.
  unfold bind at 1. unfold gets at 1.
  assert (Hpre : (bind (if effectCleanup st then clearDebounce else ret tt)
                       (fun _ => clearDebounce)) st
                 = (Done tt, with_timers [] st)).
  { unfold bind. destruct (effectCleanup st).
    - rewrite (clearDebounce_debounced st Hst).
      rewrite (clearDebounce_debounced _ Hst'). destruct st; reflexivity.
    - unfold ret. apply (clearDebounce_debounced st Hst). }
  unfold bind in Hpre |- *.
  destruct ((if effectCleanup st then clearDebounce else ret tt) st)
    as [[[]| |] st1] eqn:H1; try discriminate Hpre.
  rewrite Hpre. destruct st; run_effect.
  destruct (_ <? 2)%nat; reflexivity.
Qed.

Lemma eqb_false (s t : jsstring) : s <> t -> JsString.eqb s t = false.
Proof.
  intros H. unfold JsString.eqb.
  destruct (list_eq_dec N.eq_dec s t); [contradiction | reflexivity].
Qed.

Lemma eqb_true (s t : jsstring) : JsString.eqb s t = true -> s = t.
Proof.
  unfold JsString.eqb.
  destruct (list_eq_dec N.eq_dec s t); [trivial | discriminate].
Qed.

Variable given : bool.

Lemma keystroke_render (text : jsstring) (st : State) :
  step given st (Keystroke text) =
  exec (render_after (searchQuery st)) (with_searchQuery text st).
Proof. reflexivity. Qed.

(** A keystroke that changes the query, under the discipline. *)
Lemma keystroke_changed (text : jsstring) (st : State) :
  debounced st -> text <> searchQuery st ->
  step given st (Keystroke text) =
  if (JsString.length (trim text) <? 2)%nat
  then with_effectCleanup false
         (with_searchResults [] (with_timers [] (with_searchQuery text st)))
  else
    with_effectCleanup true
      (with_searchDebounceRef (Some (nextTimer st))
         (with_nextTimer (N.succ (nextTimer st))
            (with_timers [{| timer_id := nextTimer st;
                             due := (now st + 300)%N;
                             timer_query := text |}]
               (with_searchQuery text st)))).
Proof.
  intros Hst Hneq. rewrite keystroke_render.
  assert (Hst' : debounced (with_searchQuery text st))
    by (destruct st; exact Hst).
  unfold exec, render_after, bind, gets.
  replace (searchQuery (with_searchQuery text st)) with text
    by (destruct st; reflexivity).
  rewrite (eqb_false (searchQuery st) text) by congruence.
  rewrite (rerunSearchEffect_debounced _ Hst').
  destruct st; reflexivity.
Qed.

Lemma keystroke_unchanged (st : State) :
  step given st (Keystroke (searchQuery st)) = st.
Proof.
  rewrite keystroke_render. unfold exec, render_after, bind, gets.
  replace (searchQuery (with_searchQuery (searchQuery st) st))
    with (searchQuery st) by (destruct st; reflexivity).
  unfold JsString.eqb.
  destruct (list_eq_dec N.eq_dec (searchQuery st) (searchQuery st));
    [|contradiction].
  destruct st; reflexivity.
Qed.

(** ** Time *)

Lemma searchCallback_begin_exec (query : jsstring) (st : State) :
  let st' := exec (searchCallback_begin query) st in
  outside_callback st' = outside_callback st /\
  fetched st' =
  fetched st ++
  match encodeURIComponent query with
  | Some encoded => [search_call encoded]
  | None => []
  end.
Proof.
  destruct st. unfold searchCallback_begin, outside_callback.
  destruct (encodeURIComponent query) as [encoded|]; run_handler.
  - split; reflexivity.
  - split; [reflexivity | symmetry; apply app_nil_r].
Qed.

Lemma fire_runs (ts : list timer) (st : State) :
  fire ts st = (Done tt, exec (fire ts) st).
Proof.
  revert st. induction ts as [|t ts IH]; intros st; [reflexivity|].
  unfold exec. simpl fire. unfold bind.
  destruct (searchCallback_begin (timer_query t) st) as [c st1].
  rewrite IH. reflexivity.
Qed.

Lemma fire_exec (ts : list timer) (st : State) :
  let st' := exec (fire ts) st in
  outside_callback st' = outside_callback st /\
  fetched st' = fetched st ++ flat_map calls_of ts.
Proof.
  revert st. induction ts as [|t ts IH]; intros st.
  - split; [reflexivity | symmetry; apply app_nil_r].
  - cbv zeta.
    destruct (searchCallback_begin_exec (timer_query t) st) as [Ho Hf].
    assert (Hstep : exec (fire (t :: ts)) st
                    = exec (fire ts)
                           (exec (searchCallback_begin (timer_query t)) st)).
    { unfold exec. simpl fire. unfold bind.
      destruct (searchCallback_begin (timer_query t) st); reflexivity. }
    rewrite Hstep.
    destruct (IH (exec (searchCallback_begin (timer_query t)) st))
      as [Ho' Hf'].
    split.
    + rewrite Ho'. exact Ho.
    + rewrite Hf', Hf. simpl flat_map. unfold calls_of at 2.
      rewrite <- app_assoc. reflexivity.
Qed.

(** Time passing: the clock advances, the timers that are due leave the
    table and issue their calls, in order. *)
Lemma elapse_exec (ms : N) (st : State) :
  let st' := step given st (Elapse ms) in
  now st' = (now st + ms)%N /\
  timers st' = filter (fun t => negb (is_due (now st + ms) t)) (timers st) /\
  fetched st' =
  fetched st ++ flat_map calls_of (filter (is_due (now st + ms)) (timers st)) /\
  searchDebounceRef st' = searchDebounceRef st /\
  nextTimer st' = nextTimer st /\
  searchQuery st' = searchQuery st /\
  confirmedAddress st' = confirmedAddress st /\
  upcalls st' = upcalls st.
Proof.
  cbv zeta.
  set (st1 := with_timers
                (filter (fun t => negb (is_due (now st + ms) t)) (timers st))
                (with_now (now st + ms)%N st)).
  assert (Hstep : step given st (Elapse ms)
                  = exec (fire (filter (is_due (now st + ms)) (timers st)))
                         st1).
  { unfold st1. destruct st. reflexivity. }
  rewrite Hstep.
  destruct (fire_exec (filter (is_due (now st + ms)) (timers st)) st1)
    as [Ho Hf].
  unfold outside_callback in Ho.
  injection Ho as _ _ _ Hq _ _ _ Hconf Href _ Hnow Htimers Hnext Hup.
  rewrite Hnow, Htimers, Hf, Href, Hnext, Hq, Hconf, Hup.
  unfold st1. destruct st. repeat split; reflexivity.
Qed.

(** ** The discipline holds throughout *)

Lemma debounced_same (st st' : State) :
  timers st' = timers st ->
  searchDebounceRef st' = searchDebounceRef st ->
  nextTimer st' = nextTimer st ->
  debounced st -> debounced st'.
Proof. unfold debounced. intros -> -> ->. trivial. Qed.

Lemma render_after_debounced (previous : jsstring) (st : State) :
  debounced st -> debounced (exec (render_after previous) st).
Proof.
  intros Hst. unfold exec, render_after, bind, gets.
  destruct (JsString.eqb previous (searchQuery st)); [exact Hst|].
  rewrite (rerunSearchEffect_debounced st Hst).
  destruct Hst as [Hnext _].
  destruct (_ <? 2)%nat; destruct st; simpl in *; split; simpl.
  - exact Hnext.
  - constructor.
  - lia.
  - constructor; [|constructor]. simpl.
    rewrite N.eqb_refl, andb_true_r. apply negb_true_iff.
    apply N.eqb_neq. exact Hnext.
Qed.

(** The events that are no keystroke, no selection and no passing of
    time leave the timers alone. *)
Lemma other_events_timers (e : event) (st : State) :
  match e with
  | Keystroke _ | SelectCandidate _ | Elapse _ => True
  | _ =>
    timers (step given st e) = timers st /\
    searchDebounceRef (step given st e) = searchDebounceRef st /\
    nextTimer (step given st e) = nextTimer st /\
    searchQuery (step given st e) = searchQuery st
  end.
Proof.
  destruct e as [text|ms|r|feature|lat lng r|g r|t]; try exact I.
  - destruct st as [? ? ? ? ? ? ? ? ? ? ? ? ? ? ? [|n] ? ?];
      destruct r as [|[|] [data|]]; run_handler; repeat split; reflexivity.
  - destruct st; destruct given; destruct r as [|[|] [data|]]; run_handler;
      repeat split; reflexivity.
  - destruct st; destruct given; destruct g as [|lat lng|code];
      destruct r as [|[|] [data|]]; run_handler;
      repeat match goal with
             | |- context [if ?b then _ else _] => destruct b
             end; repeat split; reflexivity.
  - destruct st; run_handler; repeat split; reflexivity.
Qed.

Lemma select_candidate_render (feature : Photon.feature) (st : State) :
  exists st1,
    step given st (SelectCandidate feature)
    = exec (render_after (searchQuery st)) st1 /\
    timers st1 = timers st /\
    searchDebounceRef st1 = searchDebounceRef st /\
    nextTimer st1 = nextTimer st /\
    fetched st1 = fetched st /\
    (searchQuery st1 = searchQuery st \/
     searchQuery st1 = buildReadableAddress (Photon.props feature)).
Proof.
  destruct (isValidCoord (snd (Photon.coordinates feature))
                         (fst (Photon.coordinates feature))) eqn:Hvalid.
  - pose proof (handleSearchSelect_valid given feature st Hvalid) as Hsel.
    cbv zeta in Hsel.
    eexists. split.
    + change (step given st (SelectCandidate feature))
        with (exec (bind (handleSearchSelect given feature)
                         (fun _ => render_after (searchQuery st))) st).
      apply (exec_then_render _ _ _ _ Hsel).
    + destruct st; repeat split; try reflexivity. right. reflexivity.
  - pose proof (handleSearchSelect_invalid given feature st Hvalid) as Hsel.
    exists st. split.
    + change (step given st (SelectCandidate feature))
        with (exec (bind (handleSearchSelect given feature)
                         (fun _ => render_after (searchQuery st))) st).
      apply (exec_then_render _ _ _ _ Hsel).
    + repeat split; try reflexivity. left. reflexivity.
Qed.

Lemma step_debounced (e : event) (st : State) :
  debounced st -> debounced (step given st e).
Proof.
  intros Hst.
  pose proof (other_events_timers e st) as Hother.
  destruct e as [text|ms|r|feature|lat lng r|g r|t];
    try (destruct Hother as (Ht & Hr & Hn & _);
         exact (debounced_same _ _ Ht Hr Hn Hst)).
  - rewrite keystroke_render. apply render_after_debounced.
    destruct st; exact Hst.
  - destruct (elapse_exec ms st) as (_ & Ht & _ & Hr & Hn & _).
    destruct Hst as [Hnext Hall]. split.
    + rewrite Hn. exact Hnext.
    + rewrite Ht, Hr. apply Forall_forall. intros t Hin.
      apply filter_In in Hin. destruct Hin as [Hin _].
      rewrite Forall_forall in Hall. apply Hall. exact Hin.
  - destruct (select_candidate_render feature st)
      as (st1 & -> & Ht & Hr & Hn & _).
    apply render_after_debounced.
    exact (debounced_same _ _ Ht Hr Hn Hst).
Qed.

Lemma run_snoc (history : list event) (e : event) (st : State) :
  run given (history ++ [e]) st = step given (run given history st) e.
Proof. unfold run. rewrite fold_left_app. reflexivity. Qed.

Lemma run_debounced (history : list event) (st : State) :
  debounced st -> debounced (run given history st).
Proof.
  intros Hst. induction history as [|e history IH] using rev_ind.
  - exact Hst.
  - rewrite run_snoc. apply step_debounced. exact IH.
Qed.

Lemma mounted_debounced : debounced mounted.
Proof. split; [discriminate | constructor]. Qed.
End DebounceFacts.

Section DebounceClaims.
Import JsString JsNumber Sanitizer Spec Picker.
Variable given : bool.

(** What a keystroke that changes the query leaves behind. *)
Lemma keystroke_changed_view (text : jsstring) (st : State) :
  debounced st -> text <> searchQuery st ->
  let st' := step given st (Keystroke text) in
  searchQuery st' = text /\
  now st' = now st /\
  fetched st' = fetched st /\
  timers st' =
  (if (JsString.length (trim text) <? 2)%nat then []
   else [{| timer_id := nextTimer st; due := (now st + 300)%N;
            timer_query := text |}]) /\
  (if (JsString.length (trim text) <? 2)%nat
   then searchResults st' = [] else True).
Proof.
  intros Hst Hneq. cbv zeta. rewrite (keystroke_changed given text st Hst Hneq).
  destruct (_ <? 2)%nat; destruct st; repeat split; reflexivity.
Qed.

(** A keystroke followed by less than 300 ms issues no call. *)
Lemma keystroke_then_pause (text : jsstring) (ms : N) (st : State) :
  debounced st -> text <> searchQuery st -> (ms < 300)%N ->
  let st' := run given [Keystroke text; Elapse ms] st in
  fetched st' = fetched st /\ debounced st' /\ searchQuery st' = text.
Proof.
  intros Hst Hneq Hms. cbv zeta.
  change (run given [Keystroke text; Elapse ms] st)
    with (step given (step given st (Keystroke text)) (Elapse ms)).
  destruct (keystroke_changed_view text st Hst Hneq)
    as (Hq & Hnow & Hf & Ht & _).
  destruct (elapse_exec given ms (step given st (Keystroke text)))
    as (_ & _ & Hf' & _ & _ & Hq' & _).
  split; [|split].
  - rewrite Hf', Hf, Ht, Hnow.
    destruct (_ <? 2)%nat; simpl; [apply app_nil_r|].
    unfold is_due. simpl.
    destruct (N.leb_spec (now st + 300) (now st + ms)); [lia|].
    apply app_nil_r.
  - apply step_debounced, step_debounced. exact Hst.
  - rewrite Hq'. exact Hq.
Qed.

(** A keystroke followed by a pause issues the call for its query when
    the pause reaches 300 ms, and none before. *)
Lemma keystroke_then_wait (text : jsstring) (ms : N) (st : State) :
  debounced st -> text <> searchQuery st ->
  (2 <= JsString.length (trim text))%nat ->
  fetched (run given [Keystroke text; Elapse ms] st) =
  fetched st ++
  (if (300 <=? ms)%N
   then match encodeURIComponent text with
        | Some encoded => [search_call encoded]
        | None => []
        end
   else []).
Proof.
  intros Hst Hneq Hlen.
  change (run given [Keystroke text; Elapse ms] st)
    with (step given (step given st (Keystroke text)) (Elapse ms)).
  destruct (keystroke_changed_view text st Hst Hneq)
    as (Hq & Hnow & Hf & Ht & _).
  destruct (elapse_exec given ms (step given st (Keystroke text)))
    as (_ & _ & Hf' & _).
  rewrite Hf', Hf, Ht, Hnow.
  destruct (Nat.ltb_spec (JsString.length (trim text)) 2); [lia|].
  f_equal. simpl. unfold is_due. simpl.
  destruct (N.leb_spec (now st + 300) (now st + ms));
    destruct (N.leb_spec 300 ms); try lia.
  - simpl. unfold calls_of. simpl. apply app_nil_r.
  - reflexivity.
Qed.

End DebounceClaims.

(* ================================================================== *)
(** * [encodeURIComponent] *)
(* ================================================================== *)

Section EncodingFacts.
Import JsString Spec.
Local Open Scope N_scope.

Lemma hex_digit_inj (d d' : N) :
  d < 16 -> d' < 16 -> hex_digit d = hex_digit d' -> d = d'.
Proof.
  unfold hex_digit. intros Hd Hd'.
  destruct (N.ltb_spec d 10); destruct (N.ltb_spec d' 10); lia.
Qed.

Lemma percent_app_inj (b b' : N) (x y : jsstring) :
  b < 256 -> b' < 256 ->
  percent b ++ x = percent b' ++ y -> b = b' /\ x = y.
Proof.
  intros Hb Hb' H. unfold percent in H. simpl in H.
  injection H as Hhi Hlo Hxy.
  apply hex_digit_inj in Hhi; [|lia_div|lia_div].
  apply hex_digit_inj in Hlo; [|lia_div|lia_div].
  split; [lia_div | exact Hxy].
Qed.

(** The octets of a code point: their number is read off the first,
    and they determine the code point. *)
Lemma utf8_shape (cp : N) :
  cp < 1114112 ->
  match utf8 cp with
  | [b0] => b0 < 128 /\ cp = b0
  | [b0; b1] =>
    192 <= b0 < 224 /\ 128 <= b1 < 192 /\
    cp = (b0 - 192) * 64 + (b1 - 128)
  | [b0; b1; b2] =>
    224 <= b0 < 240 /\ 128 <= b1 < 192 /\ 128 <= b2 < 192 /\
    cp = (b0 - 224) * 4096 + (b1 - 128) * 64 + (b2 - 128)
  | [b0; b1; b2; b3] =>
    240 <= b0 < 248 /\ 128 <= b1 < 192 /\ 128 <= b2 < 192 /\
    128 <= b3 < 192 /\
    cp = (b0 - 240) * 262144 + (b1 - 128) * 4096 + (b2 - 128) * 64
         + (b3 - 128)
  | _ => False
  end.
Proof.
  intros Hcp. unfold utf8.
  destruct (N.ltb_spec cp 128); [split; [assumption | reflexivity]|].
  destruct (N.ltb_spec cp 2048); [repeat split; lia_div|].
  destruct (N.ltb_spec cp 65536); repeat split; lia_div.
Qed.

Lemma escape_app_inj (cp cp' : N) (x y : jsstring) :
  cp < 1114112 -> cp' < 1114112 ->
  escape cp ++ x = escape cp' ++ y -> cp = cp' /\ x = y.
Proof.
  intros Hcp Hcp' H.
  pose proof (utf8_shape cp Hcp) as S.
  pose proof (utf8_shape cp' Hcp') as S'.
  unfold escape in H.
  destruct (utf8 cp) as [|b0 [|b1 [|b2 [|b3 [|]]]]]; try contradiction;
    destruct (utf8 cp') as [|c0 [|c1 [|c2 [|c3 [|]]]]]; try contradiction;
    cbn [flat_map] in H; rewrite <- ?app_assoc in H;
    apply percent_app_inj in H; try lia;
    destruct H as [E0 H]; try lia;
    repeat (apply percent_app_inj in H; [|lia|lia];
            let E := fresh "E" in destruct H as [E H]);
    rewrite ?app_nil_l in H; (split; [lia | exact H]).
Qed.

Lemma escape_head (cp : N) : exists tl, escape cp = 37 :: tl.
Proof.
  unfold escape, utf8.
  destruct (cp <? 128); [|destruct (cp <? 2048); [|destruct (cp <? 65536)]];
    simpl; eauto.
Qed.

Lemma unreserved_not_percent (c : code_unit) :
  is_unreserved c = true -> c <> 37.
Proof. intros H ->. discriminate H. Qed.

Lemma surrogate_pair_range (lead trail : code_unit) :
  is_leading_surrogate lead = true -> is_trailing_surrogate trail = true ->
  65536 <= surrogate_pair lead trail < 1114112.
Proof.
  unfold is_leading_surrogate, is_trailing_surrogate, surrogate_pair.
  rewrite !andb_true_iff, !N.leb_le. lia.
Qed.

Lemma surrogate_pair_inj (l t l' t' : code_unit) :
  is_leading_surrogate l = true -> is_trailing_surrogate t = true ->
  is_leading_surrogate l' = true -> is_trailing_surrogate t' = true ->
  surrogate_pair l t = surrogate_pair l' t' -> l = l' /\ t = t'.
Proof.
  unfold is_leading_surrogate, is_trailing_surrogate, surrogate_pair.
  rewrite !andb_true_iff, !N.leb_le. lia.
Qed.

Lemma encodeURIComponent_cons (c : code_unit) (rest e : jsstring) :
  encodeURIComponent (c :: rest) = Some e -> first_unit c rest e.
Proof.
  intros H. cbn [encodeURIComponent] in H.
  destruct (is_unreserved c) eqn:Hu.
  - destruct (encodeURIComponent rest) as [e1|] eqn:He; [|discriminate H].
    injection H as <-. eapply first_plain; eauto.
  - destruct (is_trailing_surrogate c) eqn:Ht; [discriminate H|].
    destruct (is_leading_surrogate c) eqn:Hl.
    + destruct rest as [|t rest']; [discriminate H|].
      destruct (is_trailing_surrogate t) eqn:Ht'; [|discriminate H].
      destruct (encodeURIComponent rest') as [e1|] eqn:He; [|discriminate H].
      injection H as <-. eapply first_pair; eauto.
    + destruct (encodeURIComponent rest) as [e1|] eqn:He; [|discriminate H].
      injection H as <-. eapply first_escaped; eauto.
Qed.

Lemma encodeURIComponent_inj_bounded (n : nat) (s s' e : jsstring) :
  (List.length s <= n)%nat ->
  well_formed s -> well_formed s' ->
  encodeURIComponent s = Some e -> encodeURIComponent s' = Some e ->
  s = s'.
Proof.
  revert s s' e. induction n as [|n IH]; intros s s' e Hn Hs Hs' He He'.
  - destruct s; [|simpl in Hn; lia].
    injection He as <-.
    destruct s' as [|c' r']; [reflexivity|].
    apply encodeURIComponent_cons in He'.
    destruct He' as [e1 _ _ E|e1 _ _ E|t r e1 _ _ _ _ _ E];
      [discriminate E | |];
      match type of E with
      | _ = escape ?cp ++ _ => destruct (escape_head cp) as [tl Htl];
                               rewrite Htl in E; discriminate E
      end.
  - destruct s as [|c r].
    { injection He as <-.
      destruct s' as [|c' r']; [reflexivity|].
      apply encodeURIComponent_cons in He'.
      destruct He' as [e1 _ _ E|e1 _ _ E|t r e1 _ _ _ _ _ E];
        [discriminate E | |];
        match type of E with
        | _ = escape ?cp ++ _ => destruct (escape_head cp) as [tl Htl];
                                 rewrite Htl in E; discriminate E
        end. }
    destruct s' as [|c' r'].
    { injection He' as <-.
      apply encodeURIComponent_cons in He.
      destruct He as [e1 _ _ E|e1 _ _ E|t r0 e1 _ _ _ _ _ E];
        [discriminate E | |];
        match type of E with
        | _ = escape ?cp ++ _ => destruct (escape_head cp) as [tl Htl];
                                 rewrite Htl in E; discriminate E
        end. }
    simpl in Hn.
    inversion Hs as [|? ? Hc Hr]; subst.
    inversion Hs' as [|? ? Hc' Hr']; subst.
    apply encodeURIComponent_cons in He, He'.
    destruct He as [e1 U R E|e1 U R E|t r0 e1 U L T -> R E];
      destruct He' as [e1' U' R' E'|e1' U' R' E'|t' r0' e1' U' L' T' -> R' E'];
      subst e.
    + injection E' as -> ->.
      f_equal. apply (IH r r' e1'); try assumption. lia.
    + destruct (escape_head c') as [tl Htl]. rewrite Htl in E'.
      injection E' as -> _. discriminate U.
    + destruct (escape_head (surrogate_pair c' t')) as [tl Htl].
      rewrite Htl in E'. injection E' as -> _. discriminate U.
    + destruct (escape_head c) as [tl Htl]. rewrite Htl in E'.
      injection E' as <- _. discriminate U'.
    + apply escape_app_inj in E'; [|lia|lia].
      destruct E' as [-> ->].
      f_equal. apply (IH r r' e1'); try assumption. lia.
    + pose proof (surrogate_pair_range c' t' L' T').
      apply escape_app_inj in E'; [|lia|lia]. lia.
    + destruct (escape_head (surrogate_pair c t)) as [tl Htl].
      rewrite Htl in E'. injection E' as <- _. discriminate U'.
    + pose proof (surrogate_pair_range c t L T).
      apply escape_app_inj in E'; [|lia|lia]. lia.
    + pose proof (surrogate_pair_range c t L T).
      pose proof (surrogate_pair_range c' t' L' T').
      apply escape_app_inj in E'; [|lia|lia].
      destruct E' as [Ep ->].
      apply surrogate_pair_inj in Ep; try assumption.
      destruct Ep as [-> ->].
      inversion Hr as [|? ? _ Hr0]; subst.
      inversion Hr' as [|? ? _ Hr0']; subst.
      do 2 f_equal. apply (IH r0 r0' e1'); try assumption.
      simpl in Hn. lia.
Qed.

(** Two well-formed strings with the same encoding are the same
    string. *)
Lemma encodeURIComponent_inj (s s' e : jsstring) :
  well_formed s -> well_formed s' ->
  encodeURIComponent s = Some e -> encodeURIComponent s' = Some e ->
  s = s'.
Proof. apply (encodeURIComponent_inj_bounded (List.length s)). lia. Qed.
End EncodingFacts.

Section DebounceClaim.
Import JsString JsNumber Sanitizer Spec Picker.
Variable given : bool.

Lemma run_pair (e1 e2 : event) (es : list event) (st : State) :
  run given (e1 :: e2 :: es) st = run given es (run given [e1; e2] st).
Proof. reflexivity. Qed.

Lemma run_one (e : event) (st : State) :
  run given [e] st = step given st e.
Proof. reflexivity. Qed.

Lemma run_two (e1 e2 : event) (st : State) :
  run given [e1; e2] st = step given (step given st e1) e2.
Proof. reflexivity. Qed.

Lemma lit_a_ab : lit "ab" <> lit "a".
Proof. vm_compute. discriminate. Qed.

Lemma lit_ab_abc : lit "abc" <> lit "ab".
Proof. vm_compute. discriminate. Qed.

Lemma abc_long : (2 <= JsString.length (trim (lit "abc")))%nat.
Proof. vm_compute. lia. Qed.

Lemma abc_call :
  encodeURIComponent (lit "abc") = Some (lit "abc") /\
  search_call (lit "abc") =
  {| url := lit "https://photon.komoot.io/api/?q=abc&limit=5&bbox=51.5,22.6,56.4,26.1&lang=en";
     headers := [] |}.
Proof. split; vm_compute; reflexivity. Qed.

(** C6. Whatever happened before, typing "a", "ab", "abc" with less
    than 300 ms between the keystrokes issues no call while typing and
    leaves one timer pending, for "abc", 300 ms ahead; the time that
    passes afterwards issues the one call, for "abc", once it reaches
    300 ms, and none before: each keystroke cancels the pending timer and
    schedules a new one. *)
Theorem debounce_a_ab_abc (history : list event) (d1 d2 d3 : N) :
  let st := run given history mounted in
  let typed :=
    run given [Keystroke (lit "a"); Elapse d1;
               Keystroke (lit "ab"); Elapse d2;
               Keystroke (lit "abc")] st in
  searchQuery st <> lit "a" ->
  (d1 < 300)%N -> (d2 < 300)%N ->
  fetched typed = fetched st /\
  (exists id,
      timers typed = [{| timer_id := id;
                         due := (now typed + 300)%N;
                         timer_query := lit "abc" |}]) /\
  fetched (step given typed (Elapse d3)) =
  fetched st ++
  (if (300 <=? d3)%N
   then [{| url := lit "https://photon.komoot.io/api/?q=abc&limit=5&bbox=51.5,22.6,56.4,26.1&lang=en";
            headers := [] |}]
   else []).
Proof.
  intros st typed Hq0 Hd1 Hd2.
  assert (H0 : debounced st)
    by (apply (run_debounced given), mounted_debounced).
  destruct (keystroke_then_pause given (lit "a") d1 st H0 (not_eq_sym Hq0) Hd1)
    as (Hf1 & H1 & Hq1).
  remember (run given [Keystroke (lit "a"); Elapse d1] st) as st1 eqn:E1.
  assert (Hneq1 : lit "ab" <> searchQuery st1)
    by (rewrite Hq1; exact lit_a_ab).
  destruct (keystroke_then_pause given (lit "ab") d2 st1 H1 Hneq1 Hd2)
    as (Hf2 & H2 & Hq2).
  remember (run given [Keystroke (lit "ab"); Elapse d2] st1) as st2 eqn:E2.
  assert (Hneq2 : lit "abc" <> searchQuery st2)
    by (rewrite Hq2; exact lit_ab_abc).
  assert (Htyped : typed = step given st2 (Keystroke (lit "abc"))).
  { unfold typed. rewrite run_pair, <- E1, run_pair, <- E2. apply run_one. }
  destruct (keystroke_changed_view given (lit "abc") st2 H2 Hneq2)
    as (_ & Hnow & Hf3 & Ht3 & _).
  destruct (Nat.ltb_spec (JsString.length (trim (lit "abc"))) 2) as [Hlt|_];
    [pose proof abc_long; lia|].
  split; [|split].
  - rewrite Htyped, Hf3, Hf2, Hf1. reflexivity.
  - exists (nextTimer st2). rewrite Htyped, Ht3, Hnow. reflexivity.
  - rewrite Htyped, <- run_two.
    rewrite (keystroke_then_wait given (lit "abc") d3 st2 H2 Hneq2 abc_long).
    rewrite Hf2, Hf1. destruct abc_call as [-> <-]. reflexivity.
Qed.
End DebounceClaim.

Section DebounceWitness.
Import JsString JsNumber Sanitizer Spec Picker.

Lemma debounce_a_ab_abc_witness :
  searchQuery (run true [] mounted) <> lit "a" /\
  (100 < 300)%N /\ (200 < 300)%N /\
  fetched
    (step true
       (run true [Keystroke (lit "a"); Elapse 100;
                  Keystroke (lit "ab"); Elapse 200;
                  Keystroke (lit "abc")] (run true [] mounted))
       (Elapse 300)) =
  fetched (run true [] mounted) ++
  [{| url := lit "https://photon.komoot.io/api/?q=abc&limit=5&bbox=51.5,22.6,56.4,26.1&lang=en";
      headers := [] |}].
Proof.
  assert (Hq : searchQuery (run true [] mounted) <> lit "a") by discriminate.
  assert (H1 : (100 < 300)%N) by reflexivity.
  assert (H2 : (200 < 300)%N) by reflexivity.
  split; [exact Hq | split; [exact H1 | split; [exact H2|]]].
  exact (proj2 (proj2 (debounce_a_ab_abc true [] 100 200 300 Hq H1 H2))).
Defined.
End DebounceWitness.

(* ================================================================== *)
(** * The searches of the component *)
(* ================================================================== *)

Section SearchFacts.
Import JsString JsNumber Sanitizer Spec Picker.
Variable given : bool.

Lemma well_formed_lit (s : string) : well_formed (lit s).
Proof.
  unfold well_formed, lit. apply Forall_forall. intros c Hc.
  apply in_map_iff in Hc. destruct Hc as (a & <- & _).
  pose proof (N_ascii_bounded a). lia.
Qed.

Lemma well_formed_incl (s t : jsstring) :
  (forall c, In c s -> In c t) -> well_formed t -> well_formed s.
Proof.
  unfold well_formed. rewrite !Forall_forall. intros Hincl Ht c Hc.
  apply Ht, Hincl, Hc.
Qed.

Lemma well_formed_app (s t : jsstring) :
  well_formed s -> well_formed t -> well_formed (s ++ t).
Proof. unfold well_formed. intros Hs Ht. apply Forall_app. tauto. Qed.

Lemma well_formed_join (sep : jsstring) (parts : list jsstring) :
  well_formed sep -> Forall well_formed parts ->
  well_formed (join sep parts).
Proof.
  intros Hsep Hparts. induction Hparts as [|p rest Hp Hrest IH].
  - constructor.
  - destruct rest as [|q rest]; [exact Hp|].
    change (join sep (p :: q :: rest)) with (p ++ sep ++ join sep (q :: rest)).
    apply well_formed_app; [exact Hp|].
    apply well_formed_app; [exact Hsep | exact IH].
Qed.

Lemma well_formed_sanitiseAddress (raw : jsstring) :
  well_formed raw -> well_formed (sanitiseAddress raw).
Proof.
  apply well_formed_incl. intros c Hc.
  apply sanitiseAddress_incl in Hc. unfold replace_control in Hc.
  apply filter_In in Hc. tauto.
Qed.

Lemma well_formed_components (fields : list (option jsstring)) :
  Forall well_formed_field fields -> Forall well_formed (components fields).
Proof.
  intros H. unfold components. apply Forall_forall. intros s Hs.
  apply filter_In in Hs. destruct Hs as [Hs _].
  apply in_flat_map in Hs. destruct Hs as (f & Hf & Hs).
  rewrite Forall_forall in H. specialize (H f Hf).
  destruct f as [s'|]; [|contradiction].
  destruct Hs as [<-|[]]. exact H.
Qed.

Lemma well_formed_buildReadableAddress (p : Photon.properties) :
  well_formed_field (Photon.name p) ->
  well_formed_field (Photon.street p) ->
  well_formed_field (Photon.city p) ->
  well_formed_field (Photon.state p) ->
  well_formed (buildReadableAddress p).
Proof.
  intros Hn Hs Hc Ht. rewrite buildReadableAddress_assemble.
  apply well_formed_sanitiseAddress. unfold assemble.
  pose proof (well_formed_components
    [Photon.name p; Photon.street p; Photon.city p; Photon.state p]) as H.
  destruct (components _) as [|c cs].
  - apply well_formed_lit.
  - apply well_formed_join; [apply well_formed_lit|].
    apply H. repeat constructor; assumption.
Qed.

Lemma searched_same (st st' : State) :
  searchQuery st' = searchQuery st ->
  timers st' = timers st ->
  fetched st' = fetched st ->
  searched st -> searched st'.
Proof. unfold searched. intros -> -> ->. trivial. Qed.

Lemma render_after_searched (previous : jsstring) (st : State) :
  debounced st -> searched st -> searched (exec (render_after previous) st).
Proof.
  intros Hd (Hq & Ht & Hf). unfold exec, render_after, bind, gets.
  destruct (JsString.eqb previous (searchQuery st));
    [split; [|split]; assumption|].
  rewrite (rerunSearchEffect_debounced st Hd).
  destruct (Nat.ltb_spec (JsString.length (trim (searchQuery st))) 2)
    as [Hshort|Hlong]; destruct st; simpl in *;
    (split; [exact Hq | split; [|exact Hf]]).
  - constructor.
  - constructor; [|constructor]. simpl. split; [exact Hq | exact Hlong].
Qed.

(** The calls of the events that are no keystroke, no selection and no
    passing of time: none, or one reverse lookup. *)
Lemma other_events_fetched (e : event) (st : State) :
  match e with
  | Keystroke _ | SelectCandidate _ | Elapse _ => True
  | _ =>
    fetched (step given st e) = fetched st \/
    exists lat lng,
      fetched (step given st e) =
      fetched st ++
      [{| url := nominatim_url lat lng; headers := NOMINATIM_HEADERS |}]
  end.
Proof.
  destruct e as [text|ms|r|feature|lat lng r|g r|t]; try exact I.
  - left.
    destruct st as [? ? ? ? ? ? ? ? ? ? ? ? ? ? ? [|n] ? ?];
      destruct r as [|[|] [data|]]; run_handler; reflexivity.
  - right. exists lat, lng.
    destruct st; destruct given; destruct r as [|[|] [data|]]; run_handler;
      reflexivity.
  - destruct g as [|lat lng|code].
    + left. destruct st; run_handler; reflexivity.
    + right. exists lat, lng.
      destruct st; destruct given; destruct r as [|[|] [data|]];
        run_handler; reflexivity.
    + left. destruct st; run_handler.
      repeat match goal with
             | |- context [if ?b then _ else _] => destruct b
             end; reflexivity.
  - left. destruct st; run_handler; reflexivity.
Qed.

Lemma step_searched (e : event) (st : State) :
  debounced st -> well_formed_event e -> searched st ->
  searched (step given st e).
Proof.
  intros Hd He Hs.
  pose proof (other_events_timers given e st) as Ho.
  pose proof (other_events_fetched e st) as Hf.
  destruct e as [text|ms|r|feature|lat lng r|g r|t];
    try (destruct Ho as (Ht & _ & _ & Hq);
         destruct Hs as (Hsq & Hst & Hsf);
         split; [rewrite Hq; exact Hsq | split; [rewrite Ht; exact Hst|]];
         destruct Hf as [->|(lat' & lng' & ->)];
         [exact Hsf | apply Forall_app; split; [exact Hsf|]];
         constructor; [apply origin_reverse | constructor]).
  - rewrite keystroke_render. apply render_after_searched.
    + destruct st; exact Hd.
    + destruct Hs as (_ & Hst & Hsf).
      destruct st; split; [exact He | split; assumption].
  - destruct (elapse_exec given ms st)
      as (_ & Ht & Hfe & _ & _ & Hq & _).
    destruct Hs as (Hsq & Hst & Hsf).
    rewrite Forall_forall in Hst.
    split; [rewrite Hq; exact Hsq | split].
    + rewrite Ht. apply Forall_forall. intros t Hin.
      apply filter_In in Hin. apply Hst. tauto.
    + rewrite Hfe. apply Forall_app. split; [exact Hsf|].
      apply Forall_forall. intros r Hr.
      apply in_flat_map in Hr. destruct Hr as (t & Hin & Hr).
      apply filter_In in Hin. destruct Hin as [Hin _].
      destruct (Hst t Hin) as [Hwf Hlong].
      unfold calls_of in Hr.
      destruct (encodeURIComponent (timer_query t)) as [encoded|] eqn:Henc;
        [|contradiction].
      destruct Hr as [<-|[]].
      exact (origin_search (timer_query t) encoded Hwf Hlong Henc).
  - destruct (select_candidate_render given feature st)
      as (st1 & -> & Ht & Hr & Hn & Hfe & Hq).
    apply render_after_searched.
    + exact (debounced_same _ _ Ht Hr Hn Hd).
    + destruct Hs as (Hsq & Hst & Hsf).
      split; [|split; [rewrite Ht; exact Hst | rewrite Hfe; exact Hsf]].
      destruct Hq as [->| ->]; [exact Hsq|].
      destruct He as (Hn' & Hs' & Hc' & Ht').
      apply well_formed_buildReadableAddress; assumption.
Qed.

Lemma run_searched (history : list event) :
  Forall well_formed_event history ->
  searched (run given history mounted).
Proof.
  induction history as [|e history IH] using rev_ind; intros Hwf.
  - split; [constructor | split; constructor].
  - apply Forall_app in Hwf. destruct Hwf as [Hh He].
    inversion He as [|? ? He' _]; subst.
    rewrite run_snoc. apply step_searched.
    + apply run_debounced, mounted_debounced.
    + exact He'.
    + apply IH, Hh.
Qed.

Lemma search_call_inj (e e' : jsstring) :
  search_call e = search_call e' -> e = e'.
Proof.
  intros H. apply (f_equal url) in H.
  unfold search_call in H. cbn [url] in H. unfold photon_url in H.
  apply app_inv_head in H. apply app_inv_tail in H. exact H.
Qed.
End SearchFacts.

Section SearchClaim.
Import JsString JsNumber Sanitizer Spec Picker.
Variable given : bool.

Lemma clearDebounce_cancels (st : State) :
  exists ts,
    clearDebounce st = (Done tt, with_timers ts st) /\
    (forall t, In t ts -> In t (timers st)).
Proof.
  destruct st as [tab load err query results searching lat lng rev conf
                  ref cleanup clock timers next infl reqs ups].
  destruct ref as [id|]; [destruct (id =? 0)%N eqn:Hid|].
  - exists timers. split; [|trivial].
    run_effect. rewrite Hid. reflexivity.
  - exists (filter (fun t => negb (timer_id t =? id)%N) timers). split.
    + run_effect. rewrite Hid. reflexivity.
    + intros t Ht. apply filter_In in Ht. tauto.
  - exists timers. split; [reflexivity | trivial].
Qed.

(** A run of the effect for a query of fewer than two characters once
    trimmed: the result list is emptied at once, no call is issued and
    no timer is scheduled, whatever the state. *)
Lemma rerunSearchEffect_short (st : State) :
  (JsString.length (trim (searchQuery st)) <? 2)%nat = true ->
  exists ts,
    rerunSearchEffect st =
    (Done tt,
     with_effectCleanup false (with_searchResults [] (with_timers ts st))) /\
    (forall t, In t ts -> In t (timers st)).
Proof.
  intros Hshort.
  assert (Hfirst : exists ts,
             (if effectCleanup st then clearDebounce else ret tt) st
             = (Done tt, with_timers ts st) /\
             (forall t, In t ts -> In t (timers st))).
  { destruct (effectCleanup st).
    - apply clearDebounce_cancels.
    - exists (timers st). split; [destruct st; reflexivity | trivial]. }
  destruct Hfirst as (ts1 & H1 & Hin1).
  destruct (clearDebounce_cancels (with_timers ts1 st)) as (ts2 & H2 & Hin2).
  exists ts2. split.
  - unfold rerunSearchEffect, searchEffect.
    unfold bind at 1. unfold gets at 1.
    unfold bind at 1. rewrite H1.
    unfold bind at 1. rewrite H2.
    unfold bind at 1. unfold gets at 1.
    replace (searchQuery (with_timers ts2 (with_timers ts1 st)))
      with (searchQuery st) by (destruct st; reflexivity).
    rewrite Hshort. destruct st; reflexivity.
  - intros t Ht. apply Hin1.
    specialize (Hin2 t Ht). destruct st; exact Hin2.
Qed.

Lemma keystroke_short (text : jsstring) (st : State) :
  (JsString.length (trim text) < 2)%nat -> text <> searchQuery st ->
  let st' := step given st (Keystroke text) in
  searchResults st' = [] /\
  fetched st' = fetched st /\
  (forall t, In t (timers st') -> In t (timers st)).
Proof.
  intros Hshort Hneq. cbv zeta. rewrite keystroke_render.
  apply Nat.ltb_lt in Hshort.
  unfold exec, render_after, bind, gets.
  replace (searchQuery (with_searchQuery text st)) with text
    by (destruct st; reflexivity).
  rewrite (eqb_false (searchQuery st) text (not_eq_sym Hneq)).
  destruct (rerunSearchEffect_short (with_searchQuery text st))
    as (ts & -> & Hin).
  - replace (searchQuery (with_searchQuery text st)) with text
      by (destruct st; reflexivity).
    exact Hshort.
  - destruct st; simpl in *.
    split; [reflexivity | split; [reflexivity | exact Hin]].
Qed.

(** C7. A query of fewer than two characters once trimmed empties the
    result list as soon as it is typed, without scheduling a timer or
    issuing a call; and in no history of well-formed events is a timer
    ever pending for it or a forward-search call ever issued for it. *)
Theorem short_query_never_searched (query : jsstring) :
  (JsString.length (trim query) < 2)%nat ->
  (forall st : State,
      query <> searchQuery st ->
      let st' := step given st (Keystroke query) in
      searchResults st' = [] /\
      fetched st' = fetched st /\
      (forall t, In t (timers st') -> In t (timers st))) /\
  (forall history : list event,
      Forall well_formed_event history ->
      let st := run given history mounted in
      (forall t, In t (timers st) -> timer_query t <> query) /\
      (forall encoded,
          well_formed query ->
          encodeURIComponent query = Some encoded ->
          ~ In (search_call encoded) (fetched st))).
Proof.
  intros Hshort. split.
  - intros st Hneq. apply (keystroke_short query st Hshort Hneq).
  - intros history Hwf. cbv zeta.
    destruct (run_searched given history Hwf) as (_ & Ht & Hf).
    rewrite Forall_forall in Ht, Hf. split.
    + intros t Hin Heq. destruct (Ht t Hin) as [_ Hlong].
      rewrite Heq in Hlong. lia.
    + intros encoded Hq Henc Hin.
      specialize (Hf _ Hin).
      remember (search_call encoded) as r eqn:Hr.
      destruct Hf as [lat lng|query' encoded' Hq' Hlong Henc'].
      * discriminate Hr.
      * apply search_call_inj in Hr. subst encoded'.
        pose proof (encodeURIComponent_inj query query' encoded
                      Hq Hq' Henc Henc') as Heq.
        subst query'. lia.
Qed.

End SearchClaim.

Section SearchWitness.
Import JsString JsNumber Sanitizer Spec Picker.

Lemma short_query_never_searched_witness :
  (JsString.length (trim (lit " a ")) < 2)%nat /\
  (let st := step true mounted (Keystroke (lit "ab")) in
   lit " a " <> searchQuery st /\
   searchResults (step true st (Keystroke (lit " a "))) = [] /\
   fetched (step true st (Keystroke (lit " a "))) = fetched st) /\
  (let history := [Keystroke (lit "ab"); Elapse 300;
                   Keystroke (lit " a "); Elapse 1000] in
   Forall well_formed_event history /\
   well_formed (lit " a ") /\
   encodeURIComponent (lit " a ") = Some (lit "%20a%20") /\
   ~ In (search_call (lit "%20a%20"))
        (fetched (run true history mounted))).
Proof.
  assert (Hshort : (JsString.length (trim (lit " a ")) < 2)%nat)
    by (vm_compute; lia).
  assert (Hneq : lit " a "
                 <> searchQuery (step true mounted (Keystroke (lit "ab"))))
    by (vm_compute; discriminate).
  assert (Hwf : Forall well_formed_event
                  [Keystroke (lit "ab"); Elapse 300;
                   Keystroke (lit " a "); Elapse 1000])
    by (repeat constructor; apply well_formed_lit).
  assert (Henc : encodeURIComponent (lit " a ") = Some (lit "%20a%20"))
    by (vm_compute; reflexivity).
  pose proof (short_query_never_searched true (lit " a ") Hshort)
    as [Hnow Hever].
  split; [exact Hshort | split].
  - cbv zeta. split; [exact Hneq|].
    destruct (Hnow _ Hneq) as (Hres & Hfet & _).
    split; [exact Hres | exact Hfet].
  - cbv zeta. split; [exact Hwf|].
    split; [apply well_formed_lit | split; [exact Henc|]].
    exact (proj2 (Hever _ Hwf) _ (well_formed_lit " a ") Henc).
Defined.
End SearchWitness.

(* ================================================================== *)
(** * Further properties of the handlers *)
(* ================================================================== *)

Section HandlerProperties.
Import JsString JsNumber Sanitizer Spec Picker Sample.

Lemma eqb_refl (s : jsstring) : JsString.eqb s s = true.
Proof.
  unfold JsString.eqb.
  destruct (list_eq_dec N.eq_dec s s); [reflexivity | contradiction].
Qed.

(** X1. A candidate whose coordinates fail the validation is discarded:
    selecting it changes nothing at all, neither the query, nor the
    result list, nor the confirmed location, and nothing is handed to the
    hosting form. *)
Theorem invalid_candidate_ignored (given : bool) (feature : Photon.feature)
    (st : State) :
  isValidCoord (snd (Photon.coordinates feature))
               (fst (Photon.coordinates feature)) = false ->
  step given st (SelectCandidate feature) = st.
Proof.
  intros Hinvalid.
  pose proof (handleSearchSelect_invalid given feature st Hinvalid) as Hsel.
  change (step given st (SelectCandidate feature))
    with (exec (bind (handleSearchSelect given feature)
                     (fun _ => render_after (searchQuery st))) st).
  rewrite (exec_then_render _ _ _ _ Hsel).
  unfold exec, render_after, bind, gets.
  rewrite eqb_refl. reflexivity.
Qed.

Lemma invalid_candidate_ignored_witness :
  let feature :=
    {| Photon.props := Photon.props burj;
       Photon.coordinates := (of_decimal 552744 (-4), of_decimal 91 0) |} in
  isValidCoord (snd (Photon.coordinates feature))
               (fst (Photon.coordinates feature)) = false /\
  step true mounted (SelectCandidate feature) = mounted.
Proof.
  cbv zeta.
  assert (H : isValidCoord
                (snd (of_decimal 552744 (-4), of_decimal 91 0))
                (fst (of_decimal 552744 (-4), of_decimal 91 0)) = false)
    by (vm_compute; reflexivity).
  split; [exact H|].
  exact (invalid_candidate_ignored true
           {| Photon.props := Photon.props burj;
              Photon.coordinates :=
                (of_decimal 552744 (-4), of_decimal 91 0) |} mounted H).
Defined.

(** X2. A pin drop always resolves.  Whatever the reverse lookup answers
    (an address, a failure, a body that is no JSON), one request is
    issued, the hosting form is handed a location with the coordinates of
    the pin, that location is confirmed, no error is shown and the
    "getting address" indicator is off: the address is the assembled one
    when the lookup succeeds, the two coordinates with five decimals
    otherwise. *)
Theorem pin_drop_always_resolves (given : bool) (lat lng : number)
    (r : reply Nominatim.response) (st : State) :
  let data :=
    {| address :=
         match r with
         | Responded true (Some found) => reverseAddress found
         | _ => toFixed lat 5 ++ lit ", " ++ toFixed lng 5
         end;
       latitude := toString lat;
       longitude := toString lng |} in
  let st' := step given st (PinDrop lat lng r) in
  upcalls st' = upcalls st ++ notified given data /\
  confirmedAddress st' = address data /\
  error st' = None /\
  isReverseGeocoding st' = false /\
  fetched st' =
  fetched st ++
  [{| url := nominatim_url lat lng; headers := NOMINATIM_HEADERS |}].
Proof.
  destruct st; destruct given; destruct r as [|[|] [found|]]; run_handler;
    rewrite <- ?app_assoc; repeat split; reflexivity.
Qed.

(** X3. The GPS flow resolves only when the reverse lookup succeeds.
    With the position known, one request is issued and the loading
    indicator ends off; on an address the hosting form is handed the
    location, which is confirmed, and the pin moves to the position; on
    anything else (network failure, non-success status, a body that is no
    JSON) nothing is handed over, the confirmed address and the pin stay
    as they were and "Failed to get address. Please try again." is
    shown. *)
Theorem gps_resolves_on_success_only (given : bool) (lat lng : number)
    (r : reply Nominatim.response) (st : State) :
  let st' := step given st (UseMyLocation (Position lat lng) r) in
  isLoading st' = false /\
  fetched st' =
  fetched st ++
  [{| url := nominatim_url lat lng; headers := NOMINATIM_HEADERS |}] /\
  match r with
  | Responded true (Some found) =>
    upcalls st' =
    upcalls st ++
    notified given {| address := reverseAddress found;
                      latitude := toString lat;
                      longitude := toString lng |} /\
    confirmedAddress st' = reverseAddress found /\
    mapLat st' = Some lat /\ mapLng st' = Some lng /\
    error st' = None
  | _ =>
    upcalls st' = upcalls st /\
    confirmedAddress st' = confirmedAddress st /\
    mapLat st' = mapLat st /\ mapLng st' = mapLng st /\
    error st' = Some (lit "Failed to get address. Please try again.")
  end.
Proof.
  destruct st; destruct given; destruct r as [|[|] [found|]]; run_handler;
    rewrite <- ?app_assoc; repeat split; reflexivity.
Qed.

(** X4. A device-location request that cannot be served issues no
    request at all and ends with the loading indicator off and one of the
    five messages shown, by the code the device reports. *)
Theorem gps_denied_issues_nothing (given : bool) (g : geolocation)
    (r : reply Nominatim.response) (st : State) :
  (forall lat lng, g <> Position lat lng) ->
  let st' := step given st (UseMyLocation g r) in
  fetched st' = fetched st /\
  isLoading st' = false /\
  mapLat st' = mapLat st /\ mapLng st' = mapLng st /\
  error st' =
  Some match g with
       | PositionError 1 =>
         lit "Location permission denied. Please enable it in your browser settings."
       | PositionError 2 => lit "Location unavailable. Please try again."
       | PositionError 3 =>
         lit "Location request timed out. Please try again."
       | PositionError _ => lit "An error occurred getting your location."
       | _ => lit "Geolocation is not supported by your browser"
       end.
Proof.
  intros Hg. destruct g as [|lat lng|code].
  - destruct st; run_handler; repeat split; reflexivity.
  - destruct (Hg lat lng eq_refl).
  - destruct st; run_handler.
    change PERMISSION_DENIED with 1%N; change POSITION_UNAVAILABLE with 2%N;
      change TIMEOUT with 3%N.
    destruct code as [|[[[]|[]|]|[[]|[]|]|]]; repeat split; reflexivity.
Qed.

Lemma gps_denied_issues_nothing_witness :
  (forall lat lng, PositionError 3 <> Position lat lng) /\
  let st' := step true mounted (UseMyLocation (PositionError 3) Rejected) in
  fetched st' = fetched mounted /\
  isLoading st' = false /\
  mapLat st' = mapLat mounted /\ mapLng st' = mapLng mounted /\
  error st' = Some (lit "Location request timed out. Please try again.").
Proof.
  assert (H : forall lat lng, PositionError 3 <> Position lat lng)
    by discriminate.
  split; [exact H|].
  exact (gps_denied_issues_nothing true (PositionError 3) Rejected mounted H).
Defined.

(** X5. A search request that settles is applied without looking at the
    current query: the indicator goes off and the result list becomes the
    candidates of the response, or the empty list when the response has
    no [features], is no success, is no JSON, or never arrived.  Nothing
    else is shown: the error message, the query and the confirmed address
    stay as they were. *)
Theorem search_response_applied (given : bool) (r : reply Photon.response)
    (st : State) :
  (0 < inflight st)%nat ->
  let st' := step given st (SearchSettles r) in
  isSearching st' = false /\
  searchResults st' =
  match r with
  | Responded true (Some data) =>
    match Photon.features data with
    | Some candidates => candidates
    | None => []
    end
  | _ => []
  end /\
  error st' = error st /\
  searchQuery st' = searchQuery st /\
  confirmedAddress st' = confirmedAddress st /\
  upcalls st' = upcalls st.
Proof.
  intros Hn.
  destruct st as [? ? ? ? ? ? ? ? ? ? ? ? ? ? ? [|n] ? ?];
    [simpl in Hn; lia|].
  destruct r as [|[|] [data|]]; run_handler; repeat split; reflexivity.
Qed.

End HandlerProperties.

(* ================================================================== *)
(** * Further properties of the debouncer *)
(* ================================================================== *)

Section DebounceProperties.
Import JsString JsNumber Sanitizer Spec Picker Sample.

Lemma other_events_now (given : bool) (e : event) (st : State) :
  match e with
  | Elapse _ => True
  | _ => now (step given st e) = now st
  end.
Proof.
  destruct e as [text|ms|r|feature|lat lng r|g r|t]; try exact I.
  - rewrite keystroke_render.
    pose proof (render_after_frame (searchQuery st) (with_searchQuery text st))
      as Hf.
    unfold outside_search in Hf. injection Hf as _ _ _ _ _ _ _ _ _ Hnow _ _ _.
    rewrite Hnow. destruct st; reflexivity.
  - destruct st as [? ? ? ? ? ? ? ? ? ? ? ? ? ? ? [|n] ? ?];
      destruct r as [|[|] [data|]]; run_handler; reflexivity.
  - destruct (select_candidate_render given feature st)
      as (st1 & Hstep & _).
    destruct (isValidCoord (snd (Photon.coordinates feature))
                           (fst (Photon.coordinates feature))) eqn:Hvalid.
    + pose proof (handleSearchSelect_valid given feature st Hvalid) as Hsel.
      cbv zeta in Hsel.
      change (step given st (SelectCandidate feature))
        with (exec (bind (handleSearchSelect given feature)
                         (fun _ => render_after (searchQuery st))) st).
      rewrite (exec_then_render _ _ _ _ Hsel).
      match goal with
      | |- context [exec (render_after ?p) ?s] =>
        pose proof (render_after_frame p s) as Hf
      end.
      unfold outside_search in Hf.
      injection Hf as _ _ _ _ _ _ _ _ _ Hnow _ _ _.
      rewrite Hnow. destruct st; reflexivity.
    + pose proof (handleSearchSelect_invalid given feature st Hvalid) as Hsel.
      change (step given st (SelectCandidate feature))
        with (exec (bind (handleSearchSelect given feature)
                         (fun _ => render_after (searchQuery st))) st).
      rewrite (exec_then_render _ _ _ _ Hsel).
      pose proof (render_after_frame (searchQuery st) st) as Hf.
      unfold outside_search in Hf.
      injection Hf as _ _ _ _ _ _ _ _ _ Hnow _ _ _. exact Hnow.
  - destruct st; destruct given; destruct r as [|[|] [data|]]; run_handler;
      reflexivity.
  - destruct st; destruct given; destruct g as [|lat lng|code];
      destruct r as [|[|] [data|]]; run_handler;
      repeat match goal with
             | |- context [if ?b then _ else _] => destruct b
             end; reflexivity.
  - destruct st; run_handler; reflexivity.
Qed.

(** A selection is the handler followed by a render: the handler moves
    no timer and no clock. *)
Lemma select_candidate_split (given : bool) (feature : Photon.feature)
    (st : State) :
  exists st1,
    step given st (SelectCandidate feature)
    = exec (render_after (searchQuery st)) st1 /\
    timers st1 = timers st /\
    searchDebounceRef st1 = searchDebounceRef st /\
    nextTimer st1 = nextTimer st /\
    now st1 = now st.
Proof.
  destruct (isValidCoord (snd (Photon.coordinates feature))
                         (fst (Photon.coordinates feature))) eqn:Hvalid.
  - pose proof (handleSearchSelect_valid given feature st Hvalid) as Hsel.
    cbv zeta in Hsel.
    eexists. split.
    + change (step given st (SelectCandidate feature))
        with (exec (bind (handleSearchSelect given feature)
                         (fun _ => render_after (searchQuery st))) st).
      apply (exec_then_render _ _ _ _ Hsel).
    + destruct st; repeat split; reflexivity.
  - pose proof (handleSearchSelect_invalid given feature st Hvalid) as Hsel.
    exists st. split.
    + change (step given st (SelectCandidate feature))
        with (exec (bind (handleSearchSelect given feature)
                         (fun _ => render_after (searchQuery st))) st).
      apply (exec_then_render _ _ _ _ Hsel).
    + repeat split; reflexivity.
Qed.

Lemma pending_ok_same (st st' : State) :
  timers st' = timers st -> searchQuery st' = searchQuery st ->
  now st' = now st -> pending_ok st -> pending_ok st'.
Proof. unfold pending_ok. intros -> -> ->. trivial. Qed.

(** A run of the effect for a changed query leaves at most the timer it
    schedules. *)
Lemma rerun_pending_ok (st : State) :
  debounced st ->
  pending_ok (exec rerunSearchEffect st).
Proof.
  intros Hd. unfold exec. rewrite (rerunSearchEffect_debounced st Hd).
  destruct (Nat.ltb_spec (JsString.length (trim (searchQuery st))) 2)
    as [Hshort|Hlong]; destruct st; simpl in *; split; simpl.
  - lia.
  - constructor.
  - lia.
  - constructor; [|constructor]. simpl. repeat split; [exact Hlong|lia|lia].
Qed.

Lemma render_after_pending_ok (previous : jsstring) (st : State) :
  debounced st ->
  (JsString.eqb previous (searchQuery st) = true -> pending_ok st) ->
  pending_ok (exec (render_after previous) st).
Proof.
  intros Hd Hsame.
  pose proof (rerun_pending_ok st Hd) as Hrerun.
  unfold exec, render_after, bind, gets in *.
  destruct (JsString.eqb previous (searchQuery st)).
  - apply Hsame. reflexivity.
  - exact Hrerun.
Qed.

Lemma step_pending_ok (given : bool) (e : event) (st : State) :
  debounced st -> pending_ok st -> pending_ok (step given st e).
Proof.
  intros Hd Hp.
  pose proof (other_events_timers given e st) as Ho.
  pose proof (other_events_now given e st) as Hnow.
  destruct e as [text|ms|r|feature|lat lng r|g r|t];
    try (destruct Ho as (Ht & _ & _ & Hq);
         exact (pending_ok_same _ _ Ht Hq Hnow Hp)).
  - rewrite keystroke_render. apply render_after_pending_ok.
    + destruct st; exact Hd.
    + intros Heq. apply eqb_true in Heq.
      assert (Hq : searchQuery (with_searchQuery text st) = searchQuery st)
        by (rewrite <- Heq; reflexivity).
      refine (pending_ok_same _ _ _ Hq _ Hp); destruct st; reflexivity.
  - destruct (elapse_exec given ms st)
      as (Hclock & Ht & _ & _ & _ & Hq & _).
    destruct Hp as [Hlen Hall]. rewrite Forall_forall in Hall.
    split.
    + rewrite Ht.
      eapply Nat.le_trans; [apply filter_length_le | exact Hlen].
    + rewrite Ht, Hq, Hclock. apply Forall_forall. intros t Hin.
      apply filter_In in Hin. destruct Hin as [Hin Hdue].
      destruct (Hall t Hin) as (Hquery & Hlong & Hfuture).
      unfold is_due in Hdue. apply negb_true_iff, N.leb_gt in Hdue.
      repeat split; [exact Hquery | exact Hlong | lia | lia].
  - destruct (select_candidate_split given feature st)
      as (st1 & -> & Ht & Hr & Hn & Hclock).
    apply render_after_pending_ok.
    + exact (debounced_same _ _ Ht Hr Hn Hd).
    + intros Heq. apply eqb_true in Heq.
      exact (pending_ok_same _ _ Ht (eq_sym Heq) Hclock Hp).
Qed.

(** X6. The debouncer keeps at most one timer.  After any history of
    events there is at most one pending timer; it is for the current query,
    which has at least two characters once trimmed, and it falls due in the
    future, at most 300 ms ahead. *)
Theorem at_most_one_pending_timer (given : bool) (history : list event) :
  let st := run given history mounted in
  (List.length (timers st) <= 1)%nat /\
  forall t, In t (timers st) ->
    timer_query t = searchQuery st /\
    (2 <= JsString.length (trim (searchQuery st)))%nat /\
    (now st < due t <= now st + 300)%N.
Proof.
  cbv zeta.
  assert (H : pending_ok (run given history mounted)).
  { induction history as [|e history IH] using rev_ind.
    - split; [simpl; lia | constructor].
    - rewrite run_snoc. apply step_pending_ok; [|exact IH].
      apply run_debounced, mounted_debounced. }
  destruct H as [Hlen Hall]. split; [exact Hlen|].
  intros t Hin. rewrite Forall_forall in Hall.
  destruct (Hall t Hin) as (Hq & Hlong & Hdue).
  rewrite Hq in Hlong. repeat split; [exact Hq | exact Hlong | lia | lia].
Qed.

(** X7. A burst of typing issues no call.  After any history, keystrokes
    that each change the query and are each followed by less than 300 ms
    issue no request, however many they are. *)
Theorem typing_burst_issues_nothing (given : bool) (history : list event)
    (burst : list (jsstring * N)) :
  let st := run given history mounted in
  bursting (searchQuery st) burst ->
  fetched (run given (typing burst) st) = fetched st.
Proof.
  cbv zeta.
  assert (Hd : debounced (run given history mounted))
    by (apply run_debounced, mounted_debounced).
  generalize dependent (run given history mounted). clear history.
  induction burst as [|[text gap] burst IH]; intros st Hd Hb.
  - reflexivity.
  - destruct Hb as (Hneq & Hgap & Hrest).
    change (typing ((text, gap) :: burst))
      with (Keystroke text :: Elapse gap :: typing burst).
    rewrite run_pair.
    destruct (keystroke_then_pause given text gap st Hd Hneq Hgap)
      as (Hf & Hd' & Hq).
    rewrite IH; [exact Hf | exact Hd' | rewrite Hq; exact Hrest].
Qed.

(** X8. A query left alone is searched once.  After any history, a
    keystroke that changes the query to one of at least two characters
    once trimmed, followed by 300 ms or more, issues exactly the call for
    that query, and the time that passes afterwards issues no other. *)
Theorem settled_query_searched_once (given : bool) (history : list event)
    (text encoded : jsstring) (ms later : N) :
  let st := run given history mounted in
  text <> searchQuery st ->
  (2 <= JsString.length (trim text))%nat ->
  encodeURIComponent text = Some encoded ->
  (300 <= ms)%N ->
  fetched (run given [Keystroke text; Elapse ms; Elapse later] st) =
  fetched st ++ [search_call encoded] /\
  timers (run given [Keystroke text; Elapse ms] st) = [].
Proof.
  cbv zeta. intros Hneq Hlong Henc Hms.
  assert (Hd : debounced (run given history mounted))
    by (apply run_debounced, mounted_debounced).
  set (st := run given history mounted) in *.
  pose proof (keystroke_then_wait given text ms st Hd Hneq Hlong) as Hf.
  rewrite Henc in Hf.
  destruct (N.leb_spec 300 ms) as [_|]; [|lia].
  assert (Ht : timers (run given [Keystroke text; Elapse ms] st) = []).
  { rewrite run_two.
    destruct (keystroke_changed_view given text st Hd Hneq)
      as (_ & Hnow & _ & Ht & _).
    destruct (elapse_exec given ms (step given st (Keystroke text)))
      as (_ & Ht' & _).
    rewrite Ht', Ht, Hnow.
    destruct (Nat.ltb_spec (JsString.length (trim text)) 2); [reflexivity|].
    simpl. unfold is_due. simpl.
    destruct (N.leb_spec (now st + 300) (now st + ms)); [reflexivity | lia]. }
  split; [|exact Ht].
  change (run given [Keystroke text; Elapse ms; Elapse later] st)
    with (step given (run given [Keystroke text; Elapse ms] st) (Elapse later)).
  destruct (elapse_exec given later (run given [Keystroke text; Elapse ms] st))
    as (_ & _ & Hf' & _).
  rewrite Hf', Ht, Hf. simpl. apply app_nil_r.
Qed.

Lemma elapse_fire (given : bool) (ms : N) (st : State) :
  step given st (Elapse ms) =
  exec (fire (filter (is_due (now st + ms)) (timers st)))
       (with_timers (filter (fun t => negb (is_due (now st + ms) t))
                            (timers st))
                    (with_now (now st + ms)%N st)).
Proof. destruct st. reflexivity. Qed.

(** X9. Selecting a candidate closes the list and searches again.  After
    any history, selecting a candidate with valid coordinates empties the
    result list and puts the assembled address in the search box; when
    that address differs from the query and has at least two characters
    once trimmed, one timer is left pending for it, and 300 ms later the
    call for the address is issued. *)
Theorem selection_searches_address (given : bool) (history : list event)
    (feature : Photon.feature) (encoded : jsstring) (ms : N) :
  let st := run given history mounted in
  let address := buildReadableAddress (Photon.props feature) in
  let st' := step given st (SelectCandidate feature) in
  isValidCoord (snd (Photon.coordinates feature))
               (fst (Photon.coordinates feature)) = true ->
  address <> searchQuery st ->
  (2 <= JsString.length (trim address))%nat ->
  encodeURIComponent address = Some encoded ->
  (300 <= ms)%N ->
  searchResults st' = [] /\
  searchQuery st' = address /\
  timers st' = [{| timer_id := nextTimer st; due := (now st + 300)%N;
                   timer_query := address |}] /\
  fetched (step given st' (Elapse ms)) = fetched st ++ [search_call encoded].
Proof.
  cbv zeta. intros Hvalid Hneq Hlong Henc Hms.
  assert (Hd : debounced (run given history mounted))
    by (apply run_debounced, mounted_debounced).
  set (st := run given history mounted) in *.
  set (address := buildReadableAddress (Photon.props feature)) in *.
  pose proof (handleSearchSelect_valid given feature st Hvalid) as Hsel.
  cbv zeta in Hsel. fold address in Hsel.
  set (st1 := with_error None
                (with_upcalls
                   (upcalls st ++
                    notified given
                      {| address := address;
                         latitude := toString (snd (Photon.coordinates feature));
                         longitude := toString (fst (Photon.coordinates feature)) |})
                   (with_confirmedAddress address
                      (with_searchResults [] (with_searchQuery address st)))))
    in *.
  assert (Hstep : step given st (SelectCandidate feature)
                  = exec (render_after (searchQuery st)) st1).
  { change (step given st (SelectCandidate feature))
      with (exec (bind (handleSearchSelect given feature)
                       (fun _ => render_after (searchQuery st))) st).
    apply (exec_then_render _ _ _ _ Hsel). }
  assert (Hq1 : searchQuery st1 = address) by (destruct st; reflexivity).
  assert (Hd1 : debounced st1) by (destruct st; exact Hd).
  assert (Hrun : exec (render_after (searchQuery st)) st1 =
                 with_effectCleanup true
                   (with_searchDebounceRef (Some (nextTimer st1))
                      (with_nextTimer (N.succ (nextTimer st1))
                         (with_timers
                            [{| timer_id := nextTimer st1;
                                due := (now st1 + 300)%N;
                                timer_query := searchQuery st1 |}] st1)))).
  { unfold exec, render_after, bind, gets.
    rewrite Hq1, (eqb_false (searchQuery st) address) by congruence.
    rewrite (rerunSearchEffect_debounced st1 Hd1), Hq1.
    destruct (Nat.ltb_spec (JsString.length (trim address)) 2); [lia|].
    reflexivity. }
  rewrite Hstep, Hrun, Hq1.
  match goal with
  | |- context [fetched (step given ?s (Elapse ms))] => set (st2 := s)
  end.
  assert (Hts : timers st2 = [{| timer_id := nextTimer st;
                                 due := (now st + 300)%N;
                                 timer_query := address |}])
    by (unfold st2, st1; destruct st; reflexivity).
  assert (Hnow : now st2 = now st)
    by (unfold st2, st1; destruct st; reflexivity).
  assert (Hfet : fetched st2 = fetched st)
    by (unfold st2, st1; destruct st; reflexivity).
  split; [unfold st2, st1; destruct st; reflexivity|].
  split; [unfold st2, st1; destruct st; reflexivity|].
  split; [exact Hts|].
  destruct (elapse_exec given ms st2) as (_ & _ & Hf & _).
  rewrite Hf, Hts, Hnow, Hfet. f_equal.
  cbn [filter]. unfold is_due. cbn [due].
  destruct (N.leb_spec (now st + 300) (now st + ms)); [|lia].
  cbn [flat_map]. unfold calls_of. cbn [timer_query].
  rewrite Henc. reflexivity.
Qed.

Lemma searchCallback_begin_unencodable (query : jsstring) (st : State) :
  encodeURIComponent query = None ->
  exec (searchCallback_begin query) st =
  with_isSearching false (with_searchResults [] st).
Proof.
  intros Henc. destruct st. unfold searchCallback_begin.
  rewrite Henc. run_handler. reflexivity.
Qed.

(** X10. A query that cannot be encoded is never sent.  When the query
    holds an unpaired surrogate, so that [encodeURIComponent] throws, the
    timer that falls due issues no request: the result list is emptied, the
    indicator is off and no error message appears. *)
Theorem unencodable_query_not_sent (given : bool) (history : list event)
    (text : jsstring) (ms : N) :
  let st := run given history mounted in
  let st' := run given [Keystroke text; Elapse ms] st in
  text <> searchQuery st ->
  (2 <= JsString.length (trim text))%nat ->
  encodeURIComponent text = None ->
  (300 <= ms)%N ->
  fetched st' = fetched st /\
  timers st' = [] /\
  searchResults st' = [] /\
  isSearching st' = false /\
  error st' = error st.
Proof.
  cbv zeta. intros Hneq Hlong Henc Hms.
  assert (Hd : debounced (run given history mounted))
    by (apply run_debounced, mounted_debounced).
  set (st := run given history mounted) in *.
  rewrite run_two, elapse_fire.
  rewrite (keystroke_changed given text st Hd Hneq).
  destruct (Nat.ltb_spec (JsString.length (trim text)) 2); [lia|].
  destruct st as [tab load err query results searching lat lng rev conf
                  ref cleanup clock pending next infl reqs ups].
  simpl. unfold is_due. simpl.
  destruct (N.leb_spec (clock + 300) (clock + ms)); [|lia].
  simpl. unfold exec, bind.
  match goal with
  | |- context [searchCallback_begin text ?s] =>
    pose proof (searchCallback_begin_unencodable text s Henc) as Hcb;
      unfold exec in Hcb;
      destruct (searchCallback_begin text s) as [c s'] eqn:Hrun
  end.
  simpl in Hcb. subst s'. simpl. repeat split; reflexivity.
Qed.

(** X11. The search URL determines the query: two well-formed queries
    that are sent to the same URL are the same query. *)
Theorem search_url_determines_query (query query' encoded encoded' : jsstring) :
  well_formed query -> well_formed query' ->
  encodeURIComponent query = Some encoded ->
  encodeURIComponent query' = Some encoded' ->
  url (search_call encoded) = url (search_call encoded') ->
  query = query'.
Proof.
  intros Hq Hq' Henc Henc' Hurl.
  unfold search_call in Hurl. cbn [url] in Hurl. unfold photon_url in Hurl.
  apply app_inv_head in Hurl. apply app_inv_tail in Hurl. subst encoded'.
  exact (encodeURIComponent_inj query query' encoded Hq Hq' Henc Henc').
Qed.
End DebounceProperties.

Section EncodingProperties.
Import JsString JsNumber Sanitizer Spec Picker Sample.
Local Open Scope N_scope.

Lemma hex_digit_unreserved (d : N) :
  d < 16 -> is_unreserved (hex_digit d) = true.
Proof.
  intros Hd.
  assert (H : d = 0 \/ d = 1 \/ d = 2 \/ d = 3 \/ d = 4 \/ d = 5 \/ d = 6 \/
              d = 7 \/ d = 8 \/ d = 9 \/ d = 10 \/ d = 11 \/ d = 12 \/
              d = 13 \/ d = 14 \/ d = 15) by lia.
  repeat (destruct H as [->|H]; [reflexivity|]). subst d. reflexivity.
Qed.

Lemma percent_inert (b : N) :
  b < 256 ->
  Forall (fun c => is_unreserved c = true \/ c = 37) (percent b).
Proof.
  intros Hb. unfold percent.
  constructor; [right; reflexivity|].
  constructor; [left; apply hex_digit_unreserved; lia_div|].
  constructor; [left; apply hex_digit_unreserved; lia_div|].
  constructor.
Qed.

Lemma escape_inert (cp : N) :
  cp < 1114112 ->
  Forall (fun c => is_unreserved c = true \/ c = 37) (escape cp).
Proof.
  intros Hcp. pose proof (utf8_shape cp Hcp) as S. unfold escape.
  destruct (utf8 cp) as [|b0 [|b1 [|b2 [|b3 [|]]]]]; try contradiction;
    cbn [flat_map]; repeat (apply Forall_app; split);
    try apply Forall_nil; apply percent_inert; lia.
Qed.

Lemma encodeURIComponent_inert_bounded (n : nat) (s e : jsstring) :
  (List.length s <= n)%nat -> well_formed s ->
  encodeURIComponent s = Some e ->
  Forall (fun c => is_unreserved c = true \/ c = 37) e.
Proof.
  revert s e. induction n as [|n IH]; intros s e Hn Hs He.
  - destruct s; [|simpl in Hn; lia]. injection He as <-. constructor.
  - destruct s as [|c r]; [injection He as <-; constructor|].
    simpl in Hn. inversion Hs as [|? ? Hc Hr]; subst.
    apply encodeURIComponent_cons in He.
    destruct He as [e1 U R ->|e1 U R ->|t r0 e1 U L T -> R ->].
    + constructor; [left; exact U|]. apply (IH r); [lia | exact Hr | exact R].
    + apply Forall_app. split; [apply escape_inert; lia|].
      apply (IH r); [lia | exact Hr | exact R].
    + apply Forall_app. split.
      * apply escape_inert. apply (surrogate_pair_range c t L T).
      * inversion Hr as [|? ? _ Hr0]; subst.
        apply (IH r0); [simpl in Hn; lia | exact Hr0 | exact R].
Qed.

Lemma encodeURIComponent_plain (s : jsstring) :
  Forall (fun c => is_unreserved c = true) s ->
  encodeURIComponent s = Some s.
Proof.
  intros H. induction H as [|c s Hc _ IH]; [reflexivity|].
  cbn [encodeURIComponent]. rewrite Hc, IH. reflexivity.
Qed.

(** X18. The query cannot add to the search URL.  The encoded form of a
    well-formed query holds only letters, digits, the marks [-_.!~*'()]
    and percent signs, so none of [&], [=], [#], [?], [/], [+] or a space:
    the parameters [limit], [bbox] and [lang] that follow it in the URL are
    those of the source.  A query of letters, digits and those marks is
    sent as it is. *)
Theorem encoded_query_is_inert (query encoded : jsstring) :
  well_formed query ->
  encodeURIComponent query = Some encoded ->
  (forall c, In c encoded -> is_unreserved c = true \/ c = 37) /\
  (forall c, In c encoded ->
     c <> 38 /\ c <> 61 /\ c <> 35 /\ c <> 63 /\ c <> 47 /\ c <> 43 /\
     c <> 32) /\
  (Forall (fun c => is_unreserved c = true) query -> encoded = query).
Proof.
  intros Hq Henc.
  pose proof (encodeURIComponent_inert_bounded (List.length query) query
                encoded (Nat.le_refl _) Hq Henc) as H.
  rewrite Forall_forall in H.
  split; [exact H | split].
  - intros c Hc. destruct (H c Hc) as [Hu| ->].
    + repeat split; intros ->; discriminate Hu.
    + repeat split; discriminate.
  - intros Hplain. rewrite (encodeURIComponent_plain query Hplain) in Henc.
    injection Henc as <-. reflexivity.
Qed.
End EncodingProperties.

(* ================================================================== *)
(** * Further properties of the sanitizer *)
(* ================================================================== *)

Section SanitizerProperties.
Import JsString JsNumber Sanitizer Spec Picker Sample.

Lemma trim_start_fixed (s : jsstring) :
  (forall c, hd_error s = Some c -> is_white_space c = false) ->
  trim_start s = s.
Proof.
  destruct s as [|c rest]; [reflexivity|].
  intros H. simpl. rewrite (H c eq_refl). reflexivity.
Qed.

Lemma trim_start_length (s : jsstring) :
  (List.length (trim_start s) <= List.length s)%nat.
Proof.
  induction s as [|c rest IH]; simpl; [lia|].
  destruct (is_white_space c); simpl; lia.
Qed.

Lemma trim_end_length (s : jsstring) :
  (List.length (trim_end s) <= List.length s)%nat.
Proof.
  unfold trim_end. rewrite length_rev.
  eapply Nat.le_trans; [apply trim_start_length|].
  rewrite length_rev. lia.
Qed.

Lemma trim_end_fixed (s : jsstring) :
  (forall c, hd_error (rev s) = Some c -> is_white_space c = false) ->
  trim_end s = s.
Proof.
  intros H. unfold trim_end. rewrite (trim_start_fixed (rev s) H).
  apply rev_involutive.
Qed.

Lemma replace_control_fixed (s : jsstring) :
  Forall (fun c => is_control c = false) s -> replace_control s = s.
Proof.
  intros H. unfold replace_control. induction H as [|c s Hc _ IH]; simpl.
  - reflexivity.
  - rewrite Hc. simpl. f_equal. exact IH.
Qed.

Lemma sanitiseAddress_clean (raw : jsstring) :
  Forall (fun c => is_control c = false) (sanitiseAddress raw).
Proof.
  apply Forall_forall. intros c Hc. apply sanitiseAddress_incl in Hc.
  pose proof (replace_control_clean raw) as H.
  rewrite Forall_forall in H. apply H, Hc.
Qed.

Lemma sanitiseAddress_head (raw : jsstring) (c : code_unit) :
  hd_error (sanitiseAddress raw) = Some c -> is_white_space c = false.
Proof.
  unfold sanitiseAddress, slice0.
  destruct (trim_spec (replace_control raw)) as (_ & _ & _ & _ & _ & Hhd & _).
  destruct (trim (replace_control raw)) as [|d t]; [discriminate|].
  simpl. exact (Hhd c).
Qed.

(** X12. Sanitizing twice.  A sanitized address never starts with white
    space; sanitizing it again only removes the white space that the cut
    at 300 characters may have left at its end, and changes nothing when
    nothing was cut. *)
Theorem sanitiseAddress_twice (raw : jsstring) :
  (forall c, hd_error (sanitiseAddress raw) = Some c ->
             is_white_space c = false) /\
  sanitiseAddress (sanitiseAddress raw) = trim_end (sanitiseAddress raw) /\
  ((JsString.length (trim (replace_control raw)) <= 300)%nat ->
   sanitiseAddress (sanitiseAddress raw) = sanitiseAddress raw).
Proof.
  assert (Htwice : sanitiseAddress (sanitiseAddress raw)
                   = trim_end (sanitiseAddress raw)).
  { set (r := sanitiseAddress raw).
    unfold sanitiseAddress at 1.
    rewrite (replace_control_fixed r (sanitiseAddress_clean raw)).
    unfold trim. rewrite (trim_start_fixed r (sanitiseAddress_head raw)).
    unfold slice0. apply firstn_all2.
    eapply Nat.le_trans; [apply trim_end_length|].
    apply sanitiseAddress_length. }
  split; [exact (sanitiseAddress_head raw) | split; [exact Htwice|]].
  intros Hlen. rewrite Htwice.
  assert (Hall : sanitiseAddress raw = trim (replace_control raw)).
  { unfold sanitiseAddress, slice0. apply firstn_all2. exact Hlen. }
  rewrite Hall. apply trim_end_fixed.
  destruct (trim_spec (replace_control raw)) as (_ & _ & _ & _ & _ & _ & Hlast).
  exact Hlast.
Qed.

Lemma sanitiseAddress_twice_witness :
  (JsString.length (trim (replace_control (lit "  Dubai Mall  "))) <= 300)%nat /\
  sanitiseAddress (sanitiseAddress (lit "  Dubai Mall  "))
  = sanitiseAddress (lit "  Dubai Mall  ").
Proof.
  assert (H : (JsString.length (trim (replace_control (lit "  Dubai Mall  ")))
               <= 300)%nat) by (vm_compute; lia).
  split; [exact H|].
  exact (proj2 (proj2 (sanitiseAddress_twice (lit "  Dubai Mall  "))) H).
Defined.

(** X13. Every address a successful resolution hands to the hosting form
    is sanitized: at most 300 code units, no control character, no white
    space in front; and it is the address that is confirmed. *)
Theorem resolved_address_is_sanitized (given : bool) (e : event) (st : State) :
  resolution e ->
  exists data,
    upcalls (step given st e) = upcalls st ++ notified given data /\
    confirmedAddress (step given st e) = address data /\
    (JsString.length (address data) <= 300)%nat /\
    (forall c, In c (address data) -> is_control c = false) /\
    (forall c, hd_error (address data) = Some c -> is_white_space c = false).
Proof.
  assert (Hsan : forall raw,
             (JsString.length (sanitiseAddress raw) <= 300)%nat /\
             (forall c, In c (sanitiseAddress raw) -> is_control c = false) /\
             (forall c, hd_error (sanitiseAddress raw) = Some c ->
                        is_white_space c = false)).
  { intros raw. split; [apply sanitiseAddress_length | split].
    - pose proof (sanitiseAddress_clean raw) as H.
      rewrite Forall_forall in H. exact H.
    - exact (sanitiseAddress_head raw). }
  intros He. destruct He as [feature Hvalid|lat lng found|lat lng found].
  - destruct (select_candidate_valid given feature st Hvalid)
      as (Hup & Hconf & _).
    eexists. split; [exact Hup | split; [exact Hconf|]].
    apply Hsan.
  - destruct (pin_drop_found given lat lng found st) as (Hup & Hconf & _).
    eexists. split; [exact Hup | split; [exact Hconf|]].
    apply Hsan.
  - destruct (gps_found given lat lng found st) as (Hup & Hconf & _).
    eexists. split; [exact Hup | split; [exact Hconf|]].
    apply Hsan.
Qed.

Lemma resolved_address_is_sanitized_witness :
  let e := PinDrop lat_25_2 lng_55_3 (Responded true (Some dubai_mall)) in
  resolution e /\
  exists data,
    upcalls (step true mounted e) = upcalls mounted ++ notified true data /\
    confirmedAddress (step true mounted e) = address data /\
    (JsString.length (address data) <= 300)%nat /\
    (forall c, In c (address data) -> is_control c = false) /\
    (forall c, hd_error (address data) = Some c -> is_white_space c = false).
Proof.
  cbv zeta.
  assert (H : resolution (PinDrop lat_25_2 lng_55_3
                                  (Responded true (Some dubai_mall))))
    by constructor.
  split; [exact H|].
  exact (resolved_address_is_sanitized true _ mounted H).
Defined.

End SanitizerProperties.

Section AssemblyProperties.
Import JsString JsNumber Sanitizer Spec Picker Sample.

Lemma trim_start_blank (s : jsstring) :
  Forall (fun c => is_white_space c = true) s -> trim_start s = [].
Proof.
  intros H. induction H as [|c s Hc _ IH]; simpl; [reflexivity|].
  rewrite Hc. exact IH.
Qed.

Lemma trim_start_keeps (s : jsstring) (c : code_unit) :
  In c s -> is_white_space c = false -> In c (trim_start s).
Proof.
  intros Hin Hc. induction s as [|d s IH]; [contradiction|].
  simpl. destruct (is_white_space d) eqn:Hd.
  - destruct Hin as [->|Hin]; [congruence | exact (IH Hin)].
  - exact Hin.
Qed.

Lemma trim_keeps (s : jsstring) (c : code_unit) :
  In c s -> is_white_space c = false -> In c (trim s).
Proof.
  intros Hin Hc. unfold trim, trim_end.
  apply in_rev. rewrite rev_involutive.
  apply trim_start_keeps; [|exact Hc].
  apply -> in_rev. apply trim_start_keeps; assumption.
Qed.

Lemma join_two_has_comma (p q : jsstring) (rest : list jsstring) :
  In 44%N (join (lit ", ") (p :: q :: rest)).
Proof.
  change (join (lit ", ") (p :: q :: rest))
    with (p ++ lit ", " ++ join (lit ", ") (q :: rest)).
  apply in_or_app. right. left. reflexivity.
Qed.

(** X14. The assembled address of a candidate can be empty.  With two or
    more components present the address is never empty; with none it is
    "Unknown location"; but a candidate whose only component is a name made
    of white space assembles to the empty string, the fixed text not being
    used. *)
Theorem assembled_address_emptiness (p : Photon.properties) :
  let present :=
    components [Photon.name p; Photon.street p; Photon.city p;
                Photon.state p] in
  ((2 <= List.length present)%nat -> buildReadableAddress p <> []) /\
  (present = [] -> buildReadableAddress p = lit "Unknown location") /\
  (forall blank,
      present = [blank] ->
      Forall (fun c => is_white_space c = true) blank ->
      buildReadableAddress p = []).
Proof.
  cbv zeta. rewrite buildReadableAddress_assemble. unfold assemble.
  destruct (components _) as [|c [|d rest]] eqn:Hc.
  - split; [simpl; lia | split; [|discriminate]].
    intros _. vm_compute. reflexivity.
  - split; [simpl; lia | split; [discriminate|]].
    intros blank Heq Hblank. injection Heq as ->.
    unfold sanitiseAddress, join.
    assert (Hstrip : Forall (fun c => is_white_space c = true)
                            (replace_control blank)).
    { apply Forall_forall. intros x Hx. unfold replace_control in Hx.
      apply filter_In in Hx. rewrite Forall_forall in Hblank.
      apply Hblank. tauto. }
    unfold trim. rewrite (trim_start_blank _ Hstrip). reflexivity.
  - split; [|split; discriminate].
    intros _ Hempty.
    assert (Ht : In 44%N (trim (replace_control
                                  (join (lit ", ") (c :: d :: rest))))).
    { apply trim_keeps; [|reflexivity].
      unfold replace_control. apply filter_In.
      split; [apply join_two_has_comma | reflexivity]. }
    unfold sanitiseAddress, slice0 in Hempty.
    destruct (trim (replace_control (join (lit ", ") (c :: d :: rest))))
      as [|x t]; [contradiction | discriminate Hempty].
Qed.
End AssemblyProperties.

Section AssemblyWitness.
Import JsString JsNumber Sanitizer Spec Picker Sample.

Lemma assembled_address_emptiness_witness :
  let p := {| Photon.name := Some (lit "  ");
              Photon.street := None; Photon.city := None;
              Photon.state := None;
              Photon.country := Some (lit "United Arab Emirates");
              Photon.postcode := None |} in
  components [Photon.name p; Photon.street p; Photon.city p; Photon.state p]
  = [lit "  "] /\
  Forall (fun c => is_white_space c = true) (lit "  ") /\
  buildReadableAddress p = [].
Proof.
  cbv zeta.
  set (p := {| Photon.name := Some (lit "  ");
               Photon.street := None; Photon.city := None;
               Photon.state := None;
               Photon.country := Some (lit "United Arab Emirates");
               Photon.postcode := None |}).
  assert (Hc : components [Photon.name p; Photon.street p; Photon.city p;
                           Photon.state p] = [lit "  "]) by reflexivity.
  assert (Hb : Forall (fun c => is_white_space c = true) (lit "  "))
    by (repeat constructor).
  split; [exact Hc | split; [exact Hb|]].
  exact (proj2 (proj2 (assembled_address_emptiness p)) (lit "  ") Hc Hb).
Defined.
End AssemblyWitness.

(* ================================================================== *)
(** * What the hosting form is told *)
(* ================================================================== *)

Section UpcallProperties.
Import JsString JsNumber Sanitizer Spec Picker Sample.

(** An event hands the hosting form nothing and leaves the confirmed
    address alone, or hands it one location and confirms its address. *)
Lemma step_notifies (given : bool) (e : event) (st : State) :
  (upcalls (step given st e) = upcalls st /\
   confirmedAddress (step given st e) = confirmedAddress st) \/
  exists data,
    upcalls (step given st e) = upcalls st ++ notified given data /\
    confirmedAddress (step given st e) = address data.
Proof.
  destruct e as [text|ms|r|feature|lat lng r|g r|t].
  - left. rewrite keystroke_render.
    pose proof (render_after_frame (searchQuery st) (with_searchQuery text st))
      as Hf.
    unfold outside_search in Hf. injection Hf as _ _ _ _ _ _ _ _ Hc _ _ _ Hu.
    rewrite Hc, Hu. destruct st; split; reflexivity.
  - left. destruct (elapse_exec given ms st) as (_ & _ & _ & _ & _ & _ & Hc & Hu).
    split; assumption.
  - left. destruct (search_settles_frame given r st) as (Hu & Hc & _).
    split; assumption.
  - destruct (isValidCoord (snd (Photon.coordinates feature))
                           (fst (Photon.coordinates feature))) eqn:Hvalid.
    + right. destruct (select_candidate_valid given feature st Hvalid)
        as (Hu & Hc & _).
      eexists. split; [exact Hu | exact Hc].
    + left.
      pose proof (handleSearchSelect_invalid given feature st Hvalid) as Hsel.
      change (step given st (SelectCandidate feature))
        with (exec (bind (handleSearchSelect given feature)
                         (fun _ => render_after (searchQuery st))) st).
      rewrite (exec_then_render _ _ _ _ Hsel).
      pose proof (render_after_frame (searchQuery st) st) as Hf.
      unfold outside_search in Hf.
      injection Hf as _ _ _ _ _ _ _ _ Hc _ _ _ Hu. split; assumption.
  - right.
    exists {| address :=
                match r with
                | Responded true (Some found) => reverseAddress found
                | _ => toFixed lat 5 ++ lit ", " ++ toFixed lng 5
                end;
              latitude := toString lat;
              longitude := toString lng |}.
    destruct st; destruct given; destruct r as [|[|] [found|]]; run_handler;
      rewrite <- ?app_assoc; split; reflexivity.
  - destruct g as [|lat lng|code].
    + left. destruct (gps_unsupported given r st) as (Hu & Hc & _).
      split; assumption.
    + destruct r as [|[|] [found|]].
      * left. destruct (gps_lookup_failed given lat lng Rejected st)
          as (Hu & Hc & _); [constructor | split; assumption].
      * right. destruct (gps_found given lat lng found st) as (Hu & Hc & _).
        eexists. split; [exact Hu | exact Hc].
      * left. destruct st; run_handler; split; reflexivity.
      * left. destruct (gps_lookup_failed given lat lng
                          (Responded false (Some found)) st)
          as (Hu & Hc & _); [constructor | split; assumption].
      * left. destruct (gps_lookup_failed given lat lng
                          (Responded false None) st)
          as (Hu & Hc & _); [constructor | split; assumption].
    + left. destruct (gps_error given code r st) as (Hu & Hc & _).
      split; assumption.
  - left. destruct st; run_handler; split; reflexivity.
Qed.

Lemma last_address_snoc (datas : list LocationData) (data : LocationData) :
  last_address (datas ++ [data]) = address data.
Proof. unfold last_address. rewrite map_app. apply last_last. Qed.

(** X15. The hosting form is told of locations, one at a time.  After
    any history its two callbacks have been called for a sequence of
    locations, [onChange] with the address and then, when the form passed
    it, [onLocationFetched] with the whole location; the confirmed
    address shown is the address of the last of them (none at first). *)
Theorem form_told_of_locations (given : bool) (history : list event) :
  exists datas : list LocationData,
    upcalls (run given history mounted) = flat_map (notified given) datas /\
    confirmedAddress (run given history mounted) = last_address datas.
Proof.
  induction history as [|e history IH] using rev_ind.
  - exists []. split; reflexivity.
  - destruct IH as (datas & Hu & Hc). rewrite run_snoc.
    destruct (step_notifies given e (run given history mounted))
      as [[Hu' Hc']|(data & Hu' & Hc')].
    + exists datas. split; [rewrite Hu'; exact Hu | rewrite Hc'; exact Hc].
    + exists (datas ++ [data]). split.
      * rewrite Hu', Hu, flat_map_app. simpl. rewrite app_nil_r. reflexivity.
      * rewrite Hc'. symmetry. apply last_address_snoc.
Qed.
End UpcallProperties.

(* ================================================================== *)
(** * The coordinate fallback *)
(* ================================================================== *)

Section FallbackProperties.
Import JsString JsNumber Sanitizer Spec Picker Sample.

Lemma digits_of_uint_digits (u : Decimal.uint) :
  Forall (fun c => is_digit c = true) (digits_of_uint u).
Proof. induction u; simpl; constructor; try reflexivity; assumption. Qed.

Lemma zeros_digits (n : nat) : Forall (fun c => is_digit c = true) (zeros n).
Proof.
  unfold zeros. induction n; simpl; constructor; [reflexivity | assumption].
Qed.

Lemma Forall_split_at {A} (P : A -> Prop) (n : nat) (l : list A) :
  Forall P l -> Forall P (List.firstn n l) /\ Forall P (List.skipn n l).
Proof.
  intros H. rewrite <- (firstn_skipn n l) in H.
  apply Forall_app in H. exact H.
Qed.

(** The layout of [toFixed(5)] below 10^21: the digits of the rounded
    integer, padded to six, with the point before the last five. *)
Lemma fixed5_layout (sign digits : jsstring) :
  (sign = [] \/ sign = lit "-") ->
  Forall (fun c => is_digit c = true) digits ->
  let m := zeros (6 - JsString.length digits) ++ digits in
  let k := JsString.length m in
  five_decimals
    (sign ++ List.firstn (k - 5) m ++ lit "." ++ List.skipn (k - 5) m).
Proof.
  intros Hsign Hdigits m k.
  assert (Hk : (6 <= k)%nat).
  { unfold k, m, JsString.length, zeros.
    rewrite length_app, repeat_length. lia. }
  assert (Hm : Forall (fun c => is_digit c = true) m).
  { unfold m. apply Forall_app. split; [apply zeros_digits | exact Hdigits]. }
  exists sign, (List.firstn (k - 5) m), (List.skipn (k - 5) m).
  split; [reflexivity | split; [exact Hsign | split; [|split; [|split]]]].
  - intros Hnil. apply (f_equal (@List.length _)) in Hnil.
    rewrite length_firstn in Hnil. fold (JsString.length m) in Hnil.
    fold k in Hnil. simpl in Hnil. lia.
  - apply (Forall_split_at _ (k - 5) m Hm).
  - apply (Forall_split_at _ (k - 5) m Hm).
  - rewrite length_skipn. fold (JsString.length m). fold k. lia.
Qed.

Lemma toFixed5_shape (x : number) (q : Q) :
  real x = Some q ->
  Qle_bool (10 ^ 21) (if Qle_bool 0 q then q else - q) = false ->
  five_decimals (toFixed x 5).
Proof.
  intros Hq Hsmall.
  assert (Hshape :
    toFixed x 5 =
    let sign := if Qle_bool 0 q then [] else lit "-" in
    let digits :=
      decimal (Z.to_N (Qfloor ((if Qle_bool 0 q then q else - q)
                               * 10 ^ Z.of_nat 5 + (1 # 2)))) in
    let m := zeros (6 - JsString.length digits) ++ digits in
    let k := JsString.length m in
    sign ++ List.firstn (k - 5) m ++ lit "." ++ List.skipn (k - 5) m).
  { destruct x as [s|s| |s m e]; try discriminate Hq;
      unfold toFixed; rewrite Hq; cbv zeta; rewrite Hsmall; reflexivity. }
  rewrite Hshape. cbv zeta. apply fixed5_layout.
  - destruct (Qle_bool 0 q); [left | right]; reflexivity.
  - apply digits_of_uint_digits.
Qed.

Lemma valid_coordinate_small (x bound : number) (a lo hi : Q) :
  is_binary64 x = true ->
  is_binary64 bound = true -> is_binary64 (neg bound) = true ->
  real x = Some a ->
  (exists q, real (neg bound) = Some q /\ q == lo) ->
  (exists q, real bound = Some q /\ q == hi) ->
  -180 <= lo -> hi <= 180 ->
  ge x (neg bound) && le x bound = true ->
  Qle_bool (10 ^ 21) (if Qle_bool 0 a then a else - a) = false.
Proof.
  intros Hx Hb Hnb Ha Hlo Hhi Blo Bhi Hrange.
  apply (within_bound x bound a lo hi Hx Hb Hnb Ha Hlo Hhi) in Hrange.
  destruct Hrange as [Hl Hh].
  assert (Hbig : 180 < 10 ^ 21) by reflexivity.
  destruct (Qle_bool (10 ^ 21) (if Qle_bool 0 a then a else - a)) eqn:E;
    [|reflexivity].
  apply Qle_bool_iff in E. exfalso.
  destruct (Qle_bool 0 a).
  - apply (Qlt_irrefl 180).
    eapply Qlt_le_trans; [exact Hbig|].
    eapply Qle_trans; [exact E|].
    eapply Qle_trans; [exact Hh | exact Bhi].
  - apply (Qlt_irrefl 180).
    eapply Qlt_le_trans; [exact Hbig|].
    eapply Qle_trans; [exact E|].
    apply Qopp_le_compat in Hl. apply Qopp_le_compat in Blo.
    eapply Qle_trans; [exact Hl|].
    eapply Qle_trans; [exact Blo|]. discriminate.
Qed.

(** X16. The fallback address has five decimals.  When a pin is dropped
    at valid coordinates and the reverse lookup fails, the confirmed
    address is the latitude and the longitude, separated by a comma and a
    space, each written with an optional minus sign, an integer part and
    exactly five decimals. *)
Theorem fallback_address_five_decimals (given : bool) (lat lng : number)
    (r : reply Nominatim.response) (st : State) :
  is_binary64 lat = true -> is_binary64 lng = true ->
  isValidCoord lat lng = true ->
  failed r ->
  exists a b,
    confirmedAddress (step given st (PinDrop lat lng r)) = a ++ lit ", " ++ b /\
    five_decimals a /\ five_decimals b.
Proof.
  intros Hlat Hlng Hvalid Hr.
  destruct (handlePinDrop_failed given lat lng r st Hr) as (_ & Hconf & _).
  exists (toFixed lat 5), (toFixed lng 5).
  split; [exact Hconf|].
  unfold isValidCoord in Hvalid.
  rewrite <- !andb_assoc in Hvalid.
  apply andb_true_iff in Hvalid. destruct Hvalid as [Flat Hvalid].
  apply andb_true_iff in Hvalid. destruct Hvalid as [Flng Hvalid].
  rewrite andb_assoc in Hvalid.
  apply andb_true_iff in Hvalid. destruct Hvalid as [Rlat Rlng].
  apply isFinite_real in Flat. destruct Flat as [a Ha].
  apply isFinite_real in Flng. destruct Flng as [b Hb].
  split.
  - apply (toFixed5_shape lat a Ha).
    apply (valid_coordinate_small lat ninety a (-90) 90 Hlat eq_refl eq_refl Ha
             real_minus_ninety real_ninety); [discriminate | discriminate|].
    exact Rlat.
  - apply (toFixed5_shape lng b Hb).
    apply (valid_coordinate_small lng one_eighty b (-180) 180 Hlng
             eq_refl eq_refl Hb real_minus_one_eighty real_one_eighty);
      [discriminate | discriminate|].
    exact Rlng.
Qed.
End FallbackProperties.

(** Unfolds the commands of the earlier picker. *)
Ltac run_legacy :=
  cbv beta iota zeta delta
    [Legacy.fetchLocation Legacy.success_resume Legacy.typeLocation];
  run_handler.

(* ================================================================== *)
(** * The earlier picker and the tabbed one *)
(* ================================================================== *)

Section LegacyProperties.
Import JsString JsNumber Sanitizer Spec Picker Sample.

Lemma reverseAddress_sanitises (found : Nominatim.response) :
  reverseAddress found = sanitiseAddress (Legacy.readableAddress found).
Proof. reflexivity. Qed.

(** X17. The earlier picker and the GPS tab.  On the same answer of the
    device and of the reverse lookup, both end with the loading indicator
    off and the same message (or none); when the lookup succeeds the
    earlier picker hands the hosting form the address as the provider
    composed it, the GPS tab hands over that address sanitized, with the
    same coordinates; otherwise neither hands over anything.  The earlier
    picker confirms no address and moves no pin. *)
Theorem earlier_picker_and_gps_tab (given : bool) (g : geolocation)
    (r : reply Nominatim.response) (st : State) :
  let old := exec (Legacy.fetchLocation given g r) st in
  let new := step given st (UseMyLocation g r) in
  isLoading old = false /\ isLoading new = false /\
  error old = error new /\
  confirmedAddress old = confirmedAddress st /\
  mapLat old = mapLat st /\ mapLng old = mapLng st /\
  match g, r with
  | Position lat lng, Responded true (Some found) =>
    upcalls old =
    upcalls st ++
    notified given {| address := Legacy.readableAddress found;
                      latitude := toString lat;
                      longitude := toString lng |} /\
    upcalls new =
    upcalls st ++
    notified given {| address := sanitiseAddress (Legacy.readableAddress found);
                      latitude := toString lat;
                      longitude := toString lng |}
  | _, _ => upcalls old = upcalls st /\ upcalls new = upcalls st
  end.
Proof.
  destruct st; destruct given; destruct g as [|lat lng|code];
    destruct r as [|[|] [found|]]; run_legacy;
    repeat match goal with
           | |- context [if ?b then _ else _] => destruct b
           end;
    rewrite <- ?app_assoc; repeat split; reflexivity.
Qed.
End LegacyProperties.

(* ================================================================== *)
(** * Instances *)
(* ================================================================== *)

Section Instances.
Import JsString JsNumber Sanitizer Spec Picker Sample.

Lemma search_response_applied_witness :
  let st := run true [Keystroke (lit "ab"); Elapse 300] mounted in
  let r := Responded true (Some {| Photon.features := Some [burj] |}) in
  (0 < inflight st)%nat /\
  isSearching (step true st (SearchSettles r)) = false /\
  searchResults (step true st (SearchSettles r)) = [burj].
Proof.
  cbv zeta.
  assert (H : (0 < inflight (run true [Keystroke (lit "ab"); Elapse 300]
                                 mounted))%nat) by (vm_compute; lia).
  split; [exact H|].
  destruct (search_response_applied true
              (Responded true (Some {| Photon.features := Some [burj] |}))
              _ H) as (Hs & Hr & _).
  split; [exact Hs | exact Hr].
Defined.

Lemma typing_burst_issues_nothing_witness :
  let burst := [(lit "a", 100%N); (lit "ab", 100%N); (lit "abc", 299%N)] in
  bursting (searchQuery (run true [] mounted)) burst /\
  fetched (run true (typing burst) (run true [] mounted))
  = fetched (run true [] mounted).
Proof.
  cbv zeta.
  assert (H : bursting (searchQuery (run true [] mounted))
                       [(lit "a", 100%N); (lit "ab", 100%N);
                        (lit "abc", 299%N)]).
  { simpl. repeat split; try reflexivity; vm_compute; discriminate. }
  split; [exact H|].
  exact (typing_burst_issues_nothing true [] _ H).
Defined.

Lemma settled_query_searched_once_witness :
  lit "Burj" <> searchQuery (run true [] mounted) /\
  (2 <= JsString.length (trim (lit "Burj")))%nat /\
  encodeURIComponent (lit "Burj") = Some (lit "Burj") /\
  (300 <= 300)%N /\
  fetched (run true [Keystroke (lit "Burj"); Elapse 300; Elapse 5000]
               (run true [] mounted))
  = fetched (run true [] mounted) ++ [search_call (lit "Burj")].
Proof.
  assert (H1 : lit "Burj" <> searchQuery (run true [] mounted))
    by (vm_compute; discriminate).
  assert (H2 : (2 <= JsString.length (trim (lit "Burj")))%nat)
    by (vm_compute; lia).
  assert (H3 : encodeURIComponent (lit "Burj") = Some (lit "Burj"))
    by (vm_compute; reflexivity).
  assert (H4 : (300 <= 300)%N) by reflexivity.
  split; [exact H1 | split; [exact H2 | split; [exact H3 | split;
    [exact H4|]]]].
  exact (proj1 (settled_query_searched_once true [] (lit "Burj") (lit "Burj")
                  300 5000 H1 H2 H3 H4)).
Defined.

Lemma selection_searches_address_witness :
  let address := buildReadableAddress (Photon.props burj) in
  let encoded :=
    lit "Burj%20Khalifa%2C%20Sheikh%20Mohammed%20bin%20Rashid%20Boulevard%2C%20Dubai%2C%20Dubai" in
  isValidCoord (snd (Photon.coordinates burj))
               (fst (Photon.coordinates burj)) = true /\
  address <> searchQuery (run true [] mounted) /\
  (2 <= JsString.length (trim address))%nat /\
  encodeURIComponent address = Some encoded /\
  (300 <= 300)%N /\
  searchResults (step true (run true [] mounted) (SelectCandidate burj)) = [] /\
  fetched (step true (step true (run true [] mounted) (SelectCandidate burj))
                (Elapse 300))
  = fetched (run true [] mounted) ++ [search_call encoded].
Proof.
  cbv zeta.
  assert (H1 : isValidCoord (snd (Photon.coordinates burj))
                            (fst (Photon.coordinates burj)) = true)
    by (vm_compute; reflexivity).
  assert (H2 : buildReadableAddress (Photon.props burj)
               <> searchQuery (run true [] mounted))
    by (vm_compute; discriminate).
  assert (H3 : (2 <= JsString.length
                       (trim (buildReadableAddress (Photon.props burj))))%nat)
    by (vm_compute; lia).
  assert (H4 : encodeURIComponent (buildReadableAddress (Photon.props burj))
               = Some (lit "Burj%20Khalifa%2C%20Sheikh%20Mohammed%20bin%20Rashid%20Boulevard%2C%20Dubai%2C%20Dubai"))
    by (vm_compute; reflexivity).
  assert (H5 : (300 <= 300)%N) by reflexivity.
  split; [exact H1 | split; [exact H2 | split; [exact H3 | split;
    [exact H4 | split; [exact H5|]]]]].
  destruct (selection_searches_address true [] burj _ 300 H1 H2 H3 H4 H5)
    as (Hr & _ & _ & Hf).
  split; [exact Hr | exact Hf].
Defined.

Lemma unencodable_query_not_sent_witness :
  let text := [55357%N; 97%N] in
  text <> searchQuery (run true [] mounted) /\
  (2 <= JsString.length (trim text))%nat /\
  encodeURIComponent text = None /\
  (300 <= 300)%N /\
  fetched (run true [Keystroke text; Elapse 300] (run true [] mounted))
  = fetched (run true [] mounted) /\
  isSearching (run true [Keystroke text; Elapse 300] (run true [] mounted))
  = false.
Proof.
  cbv zeta.
  assert (H1 : [55357%N; 97%N] <> searchQuery (run true [] mounted))
    by (vm_compute; discriminate).
  assert (H2 : (2 <= JsString.length (trim [55357%N; 97%N]))%nat)
    by (vm_compute; lia).
  assert (H3 : encodeURIComponent [55357%N; 97%N] = None)
    by (vm_compute; reflexivity).
  assert (H4 : (300 <= 300)%N) by reflexivity.
  split; [exact H1 | split; [exact H2 | split; [exact H3 | split;
    [exact H4|]]]].
  destruct (unencodable_query_not_sent true [] [55357%N; 97%N] 300
              H1 H2 H3 H4) as (Hf & _ & _ & Hs & _).
  split; [exact Hf | exact Hs].
Defined.

Lemma search_url_determines_query_witness :
  well_formed (lit "Burj") /\
  encodeURIComponent (lit "Burj") = Some (lit "Burj") /\
  url (search_call (lit "Burj")) = url (search_call (lit "Burj")) /\
  lit "Burj" = lit "Burj".
Proof.
  assert (H1 : well_formed (lit "Burj")) by apply well_formed_lit.
  assert (H2 : encodeURIComponent (lit "Burj") = Some (lit "Burj"))
    by (vm_compute; reflexivity).
  split; [exact H1 | split; [exact H2 | split; [reflexivity|]]].
  exact (search_url_determines_query (lit "Burj") (lit "Burj") (lit "Burj")
           (lit "Burj") H1 H1 H2 H2 eq_refl).
Defined.

Lemma encoded_query_is_inert_witness :
  well_formed (lit "Burj & Khalifa") /\
  encodeURIComponent (lit "Burj & Khalifa")
  = Some (lit "Burj%20%26%20Khalifa") /\
  forall c, In c (lit "Burj%20%26%20Khalifa") ->
    c <> 38%N /\ c <> 61%N /\ c <> 35%N /\ c <> 63%N /\ c <> 47%N /\
    c <> 43%N /\ c <> 32%N.
Proof.
  assert (H1 : well_formed (lit "Burj & Khalifa")) by apply well_formed_lit.
  assert (H2 : encodeURIComponent (lit "Burj & Khalifa")
               = Some (lit "Burj%20%26%20Khalifa"))
    by (vm_compute; reflexivity).
  split; [exact H1 | split; [exact H2|]].
  exact (proj1 (proj2 (encoded_query_is_inert _ _ H1 H2))).
Defined.

Lemma fallback_address_five_decimals_witness :
  is_binary64 lat_25_2 = true /\ is_binary64 lng_55_3 = true /\
  isValidCoord lat_25_2 lng_55_3 = true /\
  failed (@Rejected Nominatim.response) /\
  exists a b,
    confirmedAddress (step true mounted (PinDrop lat_25_2 lng_55_3 Rejected))
    = a ++ lit ", " ++ b /\
    five_decimals a /\ five_decimals b.
Proof.
  assert (H1 : is_binary64 lat_25_2 = true) by reflexivity.
  assert (H2 : is_binary64 lng_55_3 = true) by reflexivity.
  assert (H3 : isValidCoord lat_25_2 lng_55_3 = true)
    by (vm_compute; reflexivity).
  assert (H4 : failed (@Rejected Nominatim.response)) by constructor.
  split; [exact H1 | split; [exact H2 | split; [exact H3 | split;
    [exact H4|]]]].
  exact (fallback_address_five_decimals true lat_25_2 lng_55_3 Rejected
           mounted H1 H2 H3 H4).
Defined.

End Instances.
